(** * The before/after image slider, the lazy section and the optimized image

    A shallow embedding of [src/components/ui/image-slider.tsx] (the
    [ImageSlider] and [OptimizedImage] components) and of
    [src/components/ui/LazySection.tsx], and the properties of the
    specification proved or refuted on it.

    A React component is modelled by its hook state, its refs and the part
    of the browser it touches (pending animation frames, listeners on
    [document], the inline style of [document.body]); an event handler is a
    function from state to state, and [step] dispatches a browser event to
    the handlers the component registered for it.  A render and its effects
    are committed before the next event is dispatched.

    Numbers: in the state machine a JavaScript [number] is modelled by
    [JS.number], a rational or one of the three special values of IEEE
    754.  Arithmetic on finite values is exact there, and zero carries no
    sign (every divisor below is a [DOMRect] width, which is never
    negative); the theorems on the state machine use the range and the
    order of the position, not its digits.  The arithmetic of the position
    itself, with the rounding of every operation, is in [Binary64], on the
    primitive binary64 numbers. *)

From Stdlib Require Import QArith Qround Lqa Lia Bool Arith List String.
From Stdlib Require Import DecimalString DecimalNat.
Import ListNotations.

Local Open Scope Q_scope.

(** ** JavaScript numbers *)

Module JS.

Inductive number : Type :=
| NaN
| PInf
| NInf
| Fin (q : Q).

(** [a - b] *)
Definition sub (a b : number) : number :=
  match a, b with
  | NaN, _ | _, NaN => NaN
  | PInf, PInf | NInf, NInf => NaN
  | PInf, _ => PInf
  | NInf, _ => NInf
  | Fin _, PInf => NInf
  | Fin _, NInf => PInf
  | Fin x, Fin y => Fin (x - y)
  end.

(** [a / b]: a finite value over zero is an infinity of the sign of the
    numerator, and zero over zero is [NaN]. *)
Definition div (a b : number) : number :=
  match a, b with
  | NaN, _ | _, NaN => NaN
  | (PInf | NInf), (PInf | NInf) => NaN
  | PInf, Fin y => if Qlt_le_dec y 0 then NInf else PInf
  | NInf, Fin y => if Qlt_le_dec y 0 then PInf else NInf
  | Fin _, (PInf | NInf) => Fin 0
  | Fin x, Fin y =>
      match y ?= 0 with
      | Eq => match x ?= 0 with
              | Eq => NaN
              | Gt => PInf
              | Lt => NInf
              end
      | _ => Fin (x / y)
      end
  end.

(** [a * b]: an infinity times zero is [NaN]. *)
Definition mul (a b : number) : number :=
  match a, b with
  | NaN, _ | _, NaN => NaN
  | PInf, PInf | NInf, NInf => PInf
  | PInf, NInf | NInf, PInf => NInf
  | PInf, Fin y | Fin y, PInf =>
      match y ?= 0 with Eq => NaN | Gt => PInf | Lt => NInf end
  | NInf, Fin y | Fin y, NInf =>
      match y ?= 0 with Eq => NaN | Gt => NInf | Lt => PInf end
  | Fin x, Fin y => Fin (x * y)
  end.

(** [Math.min(a, b)] and [Math.max(a, b)]: [NaN] as soon as an argument is. *)
Definition Math_min (a b : number) : number :=
  match a, b with
  | NaN, _ | _, NaN => NaN
  | NInf, _ | _, NInf => NInf
  | PInf, v | v, PInf => v
  | Fin x, Fin y => if Qlt_le_dec y x then Fin y else Fin x
  end.

Definition Math_max (a b : number) : number :=
  match a, b with
  | NaN, _ | _, NaN => NaN
  | PInf, _ | _, PInf => PInf
  | NInf, v | v, NInf => v
  | Fin x, Fin y => if Qlt_le_dec x y then Fin y else Fin x
  end.

(** [a === b] on numbers: [NaN] equals nothing, itself included. *)
Definition equals (a b : number) : Prop :=
  match a, b with
  | PInf, PInf | NInf, NInf => True
  | Fin x, Fin y => x == y
  | _, _ => False
  end.

(** [a <= b]: false as soon as an argument is [NaN]. *)
Definition leq (a b : number) : Prop :=
  match a, b with
  | NaN, _ | _, NaN => False
  | NInf, _ | _, PInf => True
  | Fin x, Fin y => x <= y
  | _, _ => False
  end.

(** [Number.isFinite(a)] and [Number.isNaN(a)] *)
Definition isFinite (a : number) : bool :=
  match a with Fin _ => true | _ => false end.

Definition isNaN (a : number) : bool :=
  match a with NaN => true | _ => false end.

(** [a < b]: false as soon as an argument is [NaN]. *)
Definition ltb (a b : number) : bool :=
  match a, b with
  | NaN, _ | _, NaN => false
  | _, NInf | PInf, _ => false
  | NInf, _ | _, PInf => true
  | Fin x, Fin y => if Qlt_le_dec x y then true else false
  end.

(** [Math.round(a)]: the nearest integer, a half going up. *)
Definition Math_round (a : number) : number :=
  match a with
  | Fin q => Fin (inject_Z (Qfloor (q + (1 # 2))))
  | _ => a
  end.

(** [`${n}`] for an index: its decimal digits. *)
Definition toString (n : nat) : string :=
  NilEmpty.string_of_uint (Nat.to_uint n).

(** [array.map((x, index) => f(x, index))] *)
Fixpoint mapFrom {A B : Type} (f : A -> nat -> B) (index : nat) (l : list A)
    : list B :=
  match l with
  | [] => []
  | x :: l' => f x index :: mapFrom f (S index) l'
  end.

Definition mapIndex {A B : Type} (f : A -> nat -> B) (l : list A) : list B :=
  mapFrom f 0 l.

Lemma toString_inj (n m : nat) : toString n = toString m -> n = m.
Proof.
  unfold toString. intro H. apply DecimalNat.Unsigned.to_uint_inj.
  apply (f_equal NilEmpty.uint_of_string) in H.
  rewrite !NilEmpty.usu in H. now injection H.
Qed.

Lemma mapFrom_length {A B : Type} (f : A -> nat -> B) (i : nat) (l : list A) :
  List.length (mapFrom f i l) = List.length l.
Proof.
  revert i. induction l as [|x l IH]; intro i; cbn; [reflexivity|].
  now rewrite IH.
Qed.

Lemma mapFrom_nth {A B : Type} (f : A -> nat -> B) (i k : nat) (l : list A) :
  nth_error (mapFrom f i l) k
  = match nth_error l k with
    | Some x => Some (f x (i + k)%nat)
    | None => None
    end.
Proof.
  revert i k. induction l as [|x l IH]; intros i [|k]; cbn; try reflexivity.
  - now rewrite Nat.add_0_r.
  - rewrite IH. now rewrite Nat.add_succ_r.
Qed.

Lemma mapFrom_In {A B : Type} (f : A -> nat -> B) (i : nat) (l : list A)
    (y : B) :
  In y (mapFrom f i l) -> exists x k, (i <= k)%nat /\ y = f x k.
Proof.
  revert i. induction l as [|x l IH]; intros i; cbn; [tauto|].
  intros [<- | H]; [exists x, i; auto|].
  destruct (IH _ H) as (x' & k & Hk & ->). exists x', k. split; [lia | auto].
Qed.

End JS.

Coercion JS.Fin : Q >-> JS.number.

(** ** ImageSlider: state *)

Module ImageSlider.
Import JS.

(** The two fields of [getBoundingClientRect()] the component reads. *)
Record DOMRect : Type := mkRect { left : number; width : number }.

(** [const percentage = Math.max(0, Math.min(100, (x / rect.width) * 100))]
    with [const x = clientX - rect.left], in the exact arithmetic of
    [JS.number]; [Binary64.percentage] is the same expression with every
    operation rounded. *)
Definition percentage (rect : DOMRect) (clientX : number) : number :=
  let x := sub clientX (left rect) in
  Math_max 0 (Math_min 100 (mul (div x (width rect)) 100)).

Arguments percentage : simpl never.

(** The component instance and what it holds in the browser. *)
Record State : Type := mkState {
  (** [useState(50)], [useState(false)], [useState(false)] *)
  sliderPosition : number;
  isDragging : bool;
  isHovering : bool;
  (** [containerRef.current]: the mounted element, given by the rectangle
      [getBoundingClientRect()] returns for it now; [None] is [null]. *)
  containerRef : option DOMRect;
  (** [animationFrameRef.current]: [None] is [undefined]. *)
  animationFrameRef : option nat;
  (** The browser's list of animation frame callbacks: the request id and
      the [clientX] the callback closed over, oldest first. *)
  frameCallbacks : list (nat * number);
  (** The last request id the browser handed out. *)
  lastFrameId : nat;
  (** The [mousemove] and [mouseup] listeners of the effect on [document]:
      [Some d] when they are registered, [d] the [isDragging] their
      closures captured. *)
  documentListeners : option bool;
  (** [document.body.style.userSelect] and [document.body.style.cursor] *)
  bodyUserSelect : string;
  bodyCursor : string;
  (** The arguments of the calls of [setSliderPosition], latest first. *)
  positionUpdates : list number
}.

Definition setSliderPosition (v : number) (s : State) : State :=
  mkState v (isDragging s) (isHovering s) (containerRef s)
    (animationFrameRef s) (frameCallbacks s) (lastFrameId s)
    (documentListeners s) (bodyUserSelect s) (bodyCursor s)
    (v :: positionUpdates s).

Definition setIsDragging (b : bool) (s : State) : State :=
  mkState (sliderPosition s) b (isHovering s) (containerRef s)
    (animationFrameRef s) (frameCallbacks s) (lastFrameId s)
    (documentListeners s) (bodyUserSelect s) (bodyCursor s)
    (positionUpdates s).

Definition setIsHovering (b : bool) (s : State) : State :=
  mkState (sliderPosition s) (isDragging s) b (containerRef s)
    (animationFrameRef s) (frameCallbacks s) (lastFrameId s)
    (documentListeners s) (bodyUserSelect s) (bodyCursor s)
    (positionUpdates s).

Definition setContainerRef (r : option DOMRect) (s : State) : State :=
  mkState (sliderPosition s) (isDragging s) (isHovering s) r
    (animationFrameRef s) (frameCallbacks s) (lastFrameId s)
    (documentListeners s) (bodyUserSelect s) (bodyCursor s)
    (positionUpdates s).

Definition setAnimationFrameRef (r : option nat) (s : State) : State :=
  mkState (sliderPosition s) (isDragging s) (isHovering s) (containerRef s)
    r (frameCallbacks s) (lastFrameId s)
    (documentListeners s) (bodyUserSelect s) (bodyCursor s)
    (positionUpdates s).

Definition setFrameCallbacks (l : list (nat * number)) (s : State) : State :=
  mkState (sliderPosition s) (isDragging s) (isHovering s) (containerRef s)
    (animationFrameRef s) l (lastFrameId s)
    (documentListeners s) (bodyUserSelect s) (bodyCursor s)
    (positionUpdates s).

Definition setDocument (l : option bool) (userSelect cursor : string)
    (s : State) : State :=
  mkState (sliderPosition s) (isDragging s) (isHovering s) (containerRef s)
    (animationFrameRef s) (frameCallbacks s) (lastFrameId s)
    l userSelect cursor (positionUpdates s).

(** ** ImageSlider: the browser's animation frames *)

(** [requestAnimationFrame(callback)]: the callback joins the list under a
    fresh id, which is at least 1. *)
Definition requestAnimationFrame (clientX : number) (s : State)
    : nat * State :=
  let id := S (lastFrameId s) in
  (id,
   mkState (sliderPosition s) (isDragging s) (isHovering s) (containerRef s)
     (animationFrameRef s) (frameCallbacks s ++ [(id, clientX)]) id
     (documentListeners s) (bodyUserSelect s) (bodyCursor s)
     (positionUpdates s)).

(** [cancelAnimationFrame(id)]: a request that already ran, or an unknown
    id, is ignored. *)
Definition cancelAnimationFrame (id : nat) (s : State) : State :=
  setFrameCallbacks
    (filter (fun c => negb (Nat.eqb (fst c) id)) (frameCallbacks s)) s.

(** [if (animationFrameRef.current) cancelAnimationFrame(...)]: the
    condition is false on [undefined] and on [0]. *)
Definition cancelPending (s : State) : State :=
  match animationFrameRef s with
  | Some (S n) => cancelAnimationFrame (S n) s
  | _ => s
  end.

(** ** ImageSlider: updateSliderPosition *)

(** The callback [updateSliderPosition] hands to [requestAnimationFrame]. *)
Definition frameCallback (clientX : number) (s : State) : State :=
  match containerRef s with
  | None => s
  | Some rect => setSliderPosition (percentage rect clientX) s
  end.

Definition updateSliderPosition (clientX : number) (s : State) : State :=
  match containerRef s with
  | None => s
  | Some _ =>
      let (id, s') := requestAnimationFrame clientX (cancelPending s) in
      setAnimationFrameRef (Some id) s'
  end.

(** The browser runs a frame: it takes the list of callbacks, empties it,
    and runs them in the order they were requested. *)
Definition runFrame (s : State) : State :=
  fold_left (fun st c => frameCallback (snd c) st)
    (frameCallbacks s) (setFrameCallbacks [] s).

(** ** ImageSlider: handlers *)

Definition handleMouseMove (clientX : number) (s : State) : State :=
  if negb (isDragging s) then s else updateSliderPosition clientX s.

(** [clientX] is [e.touches[0].clientX]. *)
Definition handleTouchMove (clientX : number) (s : State) : State :=
  if negb (isDragging s) then s else updateSliderPosition clientX s.

Definition handleClick (clientX : number) (s : State) : State :=
  if negb (isDragging s) then updateSliderPosition clientX s else s.

(** [handleGlobalMouseMove] reads the [isDragging] of the render whose
    effect registered it. *)
Definition handleGlobalMouseMove (captured : bool) (clientX : number)
    (s : State) : State :=
  if captured then updateSliderPosition clientX s else s.

Definition handleGlobalMouseUp (s : State) : State :=
  setIsDragging false s.

(** The inline handlers of the container and of the handle. *)
Definition onMouseUp (s : State) : State := setIsDragging false s.
Definition onTouchEnd (s : State) : State := setIsDragging false s.
Definition onMouseEnter (s : State) : State := setIsHovering true s.
Definition onMouseLeave (s : State) : State :=
  setIsHovering false (setIsDragging false s).
Definition onMouseDown (s : State) : State := setIsDragging true s.
Definition onTouchStart (s : State) : State := setIsDragging true s.

(** ** ImageSlider: effects *)

(** The effect with dependencies [[isDragging, updateSliderPosition]]: its
    body, and the cleanup it returns. *)
Definition globalEffect (s : State) : State :=
  if isDragging s
  then setDocument (Some (isDragging s)) "none" "col-resize" s
  else s.

Definition globalEffectCleanup (s : State) : State :=
  setDocument None "" "" s.

(** The cleanup of the effect with no dependency; it runs on unmount. *)
Definition frameEffectCleanup (s : State) : State :=
  cancelPending s.

(** React commits a render: when [isDragging] differs from the value of the
    previous render, the cleanup of the previous effect runs, then the
    effect.  ([updateSliderPosition] has no dependency and never changes.) *)
Definition commit (previous : bool) (s : State) : State :=
  if Bool.eqb previous (isDragging s) then s
  else globalEffect (globalEffectCleanup s).

(** Mounting over an element measured [rect], in a browser whose last
    request id was [fid] and whose body has no inline style: the first
    render and its effects. *)
Definition mount (rect : DOMRect) (fid : nat) : State :=
  globalEffect
    (mkState 50 false false (Some rect) None [] fid None "" "" []).

(** Unmounting: React detaches the ref and runs the cleanups. *)
Definition unmount (s : State) : State :=
  frameEffectCleanup (globalEffectCleanup (setContainerRef None s)).

(** ** ImageSlider: events *)

(** Where an event is targeted: the handle, the rest of the container, or
    an element outside the container. *)
Inductive Target : Type := Handle | Track | Outside.

Definition inside (t : Target) : bool :=
  match t with Outside => false | _ => true end.

Inductive Event : Type :=
| MouseEnter
| MouseLeave
| MouseDown (t : Target)
| MouseMove (t : Target) (clientX : number)
| MouseUp (t : Target)
| Click (t : Target) (clientX : number)
| TouchStart (t : Target)
| TouchMove (t : Target) (clientX : number)
| TouchEnd (t : Target)
| AnimationFrame
| Layout (rect : DOMRect)
| Unmount.

(** The handlers of the JSX: an event targeted at the handle runs the
    handlers of the handle and bubbles to those of the container; a touch
    keeps the target it started on. *)
Definition reactDispatch (e : Event) (s : State) : State :=
  match containerRef s with
  | None => s
  | Some _ =>
      match e with
      | MouseEnter => onMouseEnter s
      | MouseLeave => onMouseLeave s
      | MouseDown Handle => onMouseDown s
      | TouchStart Handle => onTouchStart s
      | MouseMove t clientX =>
          if inside t then handleMouseMove clientX s else s
      | MouseUp t => if inside t then onMouseUp s else s
      | Click t clientX => if inside t then handleClick clientX s else s
      | TouchMove t clientX =>
          if inside t then handleTouchMove clientX s else s
      | TouchEnd t => if inside t then onTouchEnd s else s
      | _ => s
      end
  end.

(** The listeners the effect added to [document]: every mouse move and
    mouse up reaches them, wherever it is targeted. *)
Definition documentDispatch (e : Event) (s : State) : State :=
  match documentListeners s with
  | None => s
  | Some captured =>
      match e with
      | MouseMove _ clientX => handleGlobalMouseMove captured clientX s
      | MouseUp _ => handleGlobalMouseUp s
      | _ => s
      end
  end.

(** One event: the handlers of the component, a commit, the listeners still
    on [document], a commit. *)
Definition step (s : State) (e : Event) : State :=
  match e with
  | AnimationFrame => runFrame s
  | Layout rect =>
      match containerRef s with
      | None => s
      | Some _ => setContainerRef (Some rect) s
      end
  | Unmount => unmount s
  | _ =>
      let s1 := commit (isDragging s) (reactDispatch e s) in
      commit (isDragging s1) (documentDispatch e s1)
  end.

Definition run (es : list Event) (s : State) : State :=
  fold_left step es s.

(** The phase of the specification, read off the two flags: dragging wins
    over hovering, as in the class names of the JSX. *)
Inductive Phase : Type := Idle | Hovering | Dragging.

Definition phase (s : State) : Phase :=
  if isDragging s then Dragging
  else if isHovering s then Hovering
  else Idle.

(** The operation [updatePosition(clientX)] of the specification, from the
    call to the applied update: [updateSliderPosition] schedules the
    recompute, the element measures [rect] when the frame comes, the frame
    runs. *)
Definition updatePosition (rect : DOMRect) (clientX : number) (s : State)
    : State :=
  step (step (updateSliderPosition clientX s) (Layout rect)) AnimationFrame.

(** [clamp(v, lo, hi)] in the words of the specification. *)
Definition clamp (v lo hi : Q) : Q :=
  if Qlt_le_dec v lo then lo
  else if Qlt_le_dec hi v then hi
  else v.

(** ** ImageSlider: well-formed states *)

(** At most one callback is pending, and [animationFrameRef] holds its id. *)
Definition framesOk (s : State) : bool :=
  match frameCallbacks s with
  | [] => true
  | [(S id, _)] =>
      match animationFrameRef s with
      | Some id' => Nat.eqb (S id) id'
      | None => false
      end
  | _ => false
  end.

(** The listeners on [document] and the style of the body are those of a
    render with [isDragging = d]. *)
Definition documentOk (d : bool) (s : State) : bool :=
  match documentListeners s, d with
  | Some true, true | None, false => true
  | _, _ => false
  end
  && String.eqb (bodyUserSelect s) (if d then "none" else "")
  && String.eqb (bodyCursor s) (if d then "col-resize" else "").

(** What every state reached from [mount] satisfies; once unmounted, the
    component holds nothing in the browser. *)
Definition wellFormed (s : State) : bool :=
  framesOk s
  && match containerRef s with
     | Some _ => documentOk (isDragging s) s
     | None =>
         documentOk false s
         && match frameCallbacks s with [] => true | _ => false end
     end.

Definition framesInv (s : State) : Prop :=
  frameCallbacks s = []
  \/ exists id x,
       frameCallbacks s = [(S id, x)] /\ animationFrameRef s = Some (S id).

Definition documentInv (d : bool) (s : State) : Prop :=
  documentListeners s = (if d then Some true else None)
  /\ bodyUserSelect s = (if d then "none" else "")%string
  /\ bodyCursor s = (if d then "col-resize" else "")%string.

Definition Inv (s : State) : Prop :=
  framesInv s
  /\ match containerRef s with
     | Some _ => documentInv (isDragging s) s
     | None => documentInv false s /\ frameCallbacks s = []
     end.

(** A pointer or touch move, and a release: mouse up anywhere, or the end
    of a touch that started on the widget. *)
Definition isMove (e : Event) : bool :=
  match e with
  | MouseMove _ _ | TouchMove _ _ => true
  | _ => false
  end.

Definition isRelease (e : Event) : bool :=
  match e with
  | MouseUp _ => true
  | TouchEnd t => inside t
  | _ => false
  end.

(** ** Numbers: lemmas *)

Lemma Qlt_gt_compare (w : Q) : 0 < w -> (w ?= 0) = Gt.
Proof. intro H. now apply Qgt_alt. Qed.

Lemma clamp_bounds (v lo hi : Q) :
  lo <= hi -> lo <= clamp v lo hi /\ clamp v lo hi <= hi.
Proof.
  intro H. unfold clamp.
  destruct (Qlt_le_dec v lo); [split; lra|].
  destruct (Qlt_le_dec hi v); split; lra.
Qed.

Lemma clamp_inside (v lo hi : Q) :
  lo <= v -> v <= hi -> clamp v lo hi == v.
Proof.
  intros H1 H2. unfold clamp.
  destruct (Qlt_le_dec v lo); [lra|].
  destruct (Qlt_le_dec hi v); lra.
Qed.

(** On a rectangle of positive width the percentage is finite, and it is
    the clamp of the specification. *)
Lemma percentage_clamp (c l w : Q) :
  0 < w ->
  exists p : Q,
    percentage (mkRect l w) c = Fin p
    /\ p == clamp ((c - l) / w * 100) 0 100.
Proof.
  intro Hw. unfold percentage, clamp. cbn [left width sub div].
  rewrite (Qlt_gt_compare w Hw). cbn [mul Math_min Math_max].
  set (v := (c - l) / w * 100).
  destruct (Qlt_le_dec v 100) as [H1|H1]; cbn [Math_max];
    [destruct (Qlt_le_dec 0 v) as [H2|H2] | destruct (Qlt_le_dec 0 100) as [H2|H2]];
    eexists; (split; [reflexivity|]);
    destruct (Qlt_le_dec v 0); destruct (Qlt_le_dec 100 v); lra.
Qed.

(** On a rectangle of zero width the quotient is an infinity, which the
    two bounds bring back to 100 or 0, unless the pointer is on the left
    edge. *)
Lemma percentage_zero_width (c l : Q) :
  percentage (mkRect l 0) c
  = match c ?= l with
    | Gt => Fin 100
    | Lt => Fin 0
    | Eq => NaN
    end.
Proof.
  unfold percentage. cbn [left width sub div].
  change (0 ?= 0) with Eq. cbv iota.
  destruct (Qcompare_spec (c - l) 0); destruct (Qcompare_spec c l);
    try lra; reflexivity.
Qed.

(** On the left edge of a rectangle of zero width the quotient is zero
    over zero: neither bound replaces the [NaN]. *)
Lemma percentage_zero_width_left_edge (l : Q) :
  isNaN (percentage (mkRect l 0) l) = true.
Proof.
  rewrite percentage_zero_width.
  destruct (Qcompare_spec l l); [reflexivity | lra | lra].
Qed.

Example percentage_quarter :
  equals (percentage (mkRect 100 400) 200) 25.
Proof. vm_compute. reflexivity. Qed.

Example percentage_far_left :
  percentage (mkRect 100 400) (-5000) = 0.
Proof. reflexivity. Qed.

Example percentage_far_right :
  percentage (mkRect 100 400) 90000 = 100.
Proof. reflexivity. Qed.

(** ** ImageSlider: lemmas on the frame requests *)

Lemma wellFormed_Inv (s : State) : wellFormed s = true -> Inv s.
Proof.
  destruct s as [p d h cr ar fr lf dl us cu pu].
  unfold wellFormed, framesOk, documentOk, Inv, framesInv, documentInv.
  cbn. intro H. apply andb_true_iff in H. destruct H as [Hf Hd]. split.
  - destruct fr as [|[[|id] x] [|]]; try discriminate; [now left|].
    destruct ar as [[|id']|]; try discriminate.
    apply Nat.eqb_eq in Hf. subst. right. eauto.
  - assert (Hdoc : forall b,
      (match dl, b with Some true, true | None, false => true | _, _ => false end
       && String.eqb us (if b then "none" else "")
       && String.eqb cu (if b then "col-resize" else ""))%bool = true ->
      dl = (if b then Some true else None)
      /\ us = (if b then "none" else "")%string
      /\ cu = (if b then "col-resize" else "")%string).
    { intros b Hb. apply andb_true_iff in Hb. destruct Hb as [Hb Hc].
      apply andb_true_iff in Hb. destruct Hb as [Hl Hu].
      apply String.eqb_eq in Hu, Hc.
      destruct dl as [[|]|], b; try discriminate; auto. }
    destruct cr.
    + now apply (Hdoc d).
    + apply andb_true_iff in Hd. destruct Hd as [Hd Hn].
      split; [now apply (Hdoc false)|]. now destruct fr.
Qed.

(** A call of [updateSliderPosition] on a mounted widget leaves exactly
    one request pending, its own. *)
Lemma updateSliderPosition_mounted (c : number) (s : State) (r : DOMRect) :
  containerRef s = Some r ->
  framesInv s ->
  updateSliderPosition c s
  = mkState (sliderPosition s) (isDragging s) (isHovering s) (Some r)
      (Some (S (lastFrameId s))) [(S (lastFrameId s), c)] (S (lastFrameId s))
      (documentListeners s) (bodyUserSelect s) (bodyCursor s)
      (positionUpdates s).
Proof.
  destruct s as [p d h cr ar fr lf dl us cu pu]. unfold framesInv. cbn.
  intros -> [-> | (id & x & -> & ->)]; unfold updateSliderPosition; cbn.
  - now destruct ar as [[|n]|].
  - unfold cancelPending, cancelAnimationFrame. cbn.
    now rewrite Nat.eqb_refl.
Qed.

Lemma updateSliderPosition_unmounted (c : number) (s : State) :
  containerRef s = None -> updateSliderPosition c s = s.
Proof. unfold updateSliderPosition. now intros ->. Qed.

Lemma runFrame_single (s : State) (id : nat) (c : number) (r : DOMRect) :
  frameCallbacks s = [(id, c)] ->
  containerRef s = Some r ->
  runFrame s = setSliderPosition (percentage r c) (setFrameCallbacks [] s).
Proof.
  destruct s as [p d h cr ar fr lf dl us cu pu]. cbn.
  intros -> ->. reflexivity.
Qed.

Lemma runFrame_empty (s : State) :
  frameCallbacks s = [] -> runFrame s = s.
Proof.
  destruct s as [p d h cr ar fr lf dl us cu pu]. cbn.
  intros ->. reflexivity.
Qed.

(** The state [updatePosition] ends in: one update, of the percentage of
    the rectangle measured when the frame ran. *)
Lemma updatePosition_mounted (r0 r : DOMRect) (c : number) (s : State) :
  containerRef s = Some r0 ->
  framesInv s ->
  updatePosition r c s
  = mkState (percentage r c) (isDragging s) (isHovering s) (Some r)
      (Some (S (lastFrameId s))) [] (S (lastFrameId s))
      (documentListeners s) (bodyUserSelect s) (bodyCursor s)
      (percentage r c :: positionUpdates s).
Proof.
  intros Hc Hf. unfold updatePosition.
  rewrite (updateSliderPosition_mounted c s r0 Hc Hf). reflexivity.
Qed.

(** ** ImageSlider: the invariant *)

Ltac break_state s :=
  let p := fresh "p" in let d := fresh "d" in let h := fresh "h" in
  let cr := fresh "cr" in let ar := fresh "ar" in let fr := fresh "fr" in
  let lf := fresh "lf" in let dl := fresh "dl" in let us := fresh "us" in
  let cu := fresh "cu" in let pu := fresh "pu" in
  destruct s as [p d h cr ar fr lf dl us cu pu].

(** Splits a well-formed state into its cases: mounted or not, dragging or
    not, no request pending or one. *)
Ltac break_inv s H :=
  break_state s;
  let Hf := fresh "Hf" in let Hd := fresh "Hd" in
  destruct H as [Hf Hd]; unfold framesInv, documentInv in Hf, Hd;
  cbn in Hf, Hd;
  match type of Hd with
  | match ?cr with _ => _ end =>
      destruct cr;
      [ destruct Hd as (-> & -> & ->)
      | destruct Hd as ((-> & -> & ->) & ->) ]
  end;
  [ destruct Hf as [-> | (?id & ?x & -> & ->)]
  | clear Hf ].

(** Evaluates one step on a state whose flags and pending request are
    known; the percentage stays folded. *)
Ltac step_cases :=
  cbv -[percentage Nat.eqb];
  repeat (rewrite Nat.eqb_refl; cbv -[percentage Nat.eqb]).

Ltac solve_inv := repeat split; eauto.

Lemma Inv_mount (rect : DOMRect) (fid : nat) : Inv (mount rect fid).
Proof. step_cases. solve_inv. Qed.

Lemma Inv_step (s : State) (e : Event) : Inv s -> Inv (step s e).
Proof.
  intro H. break_inv s H.
  - destruct d, e as [| |t|t c|t|t c|t|t c|t| |r|]; try destruct t;
      try destruct ar as [[|n]|]; step_cases; solve_inv.
  - destruct d, e as [| |t|t c|t|t c|t|t c|t| |r|]; try destruct t;
      step_cases; solve_inv.
  - destruct d, e as [| |t|t c|t|t c|t|t c|t| |r|]; try destruct t;
      try destruct ar as [[|n]|]; step_cases; solve_inv.
Qed.

Lemma Inv_run (es : list Event) (s : State) : Inv s -> Inv (run es s).
Proof.
  revert s. induction es as [|e es IH]; intros s H; [exact H|].
  cbn. apply IH. now apply Inv_step.
Qed.

Lemma Inv_wellFormed (s : State) : Inv s -> wellFormed s = true.
Proof.
  intro H. break_inv s H; unfold wellFormed, framesOk, documentOk; cbn.
  - now destruct d.
  - rewrite Nat.eqb_refl. now destruct d.
  - reflexivity.
Qed.

(** Every state the widget reaches from its mount is well formed. *)
Lemma wellFormed_reachable (rect : DOMRect) (fid : nat) (es : list Event) :
  wellFormed (run es (mount rect fid)) = true.
Proof. apply Inv_wellFormed, Inv_run, Inv_mount. Qed.

Lemma wellFormed_step (s : State) (e : Event) :
  wellFormed s = true -> wellFormed (step s e) = true.
Proof. intro H. now apply Inv_wellFormed, Inv_step, wellFormed_Inv. Qed.

(** ** ImageSlider: the position *)

(** C1, as the specification states it, fails: on a rectangle of zero width
    the recompute is not skipped.  The widget is mounted at position 50;
    the pointer is 10 to the right of the left edge and the element
    measures a width of zero when the frame runs: [setSliderPosition] is
    called, with 100. *)
Lemma C1_zero_width_not_skipped :
  let s := mount (mkRect 100 400) 0 in
  let s' := updatePosition (mkRect 100 0) 110 s in
  sliderPosition s = 50
  /\ sliderPosition s' = 100
  /\ positionUpdates s' = [Fin 100]
  /\ ~ equals (sliderPosition s') (sliderPosition s).
Proof.
  vm_compute. repeat split. intro H. discriminate H.
Qed.

(** C1, amended: when the element measures a width of zero as the recompute
    runs and the pointer is not on its left edge, the update is applied:
    the position becomes 100 for a pointer to the right of the edge and 0
    for one to the left, a number between 0 and 100 in both cases. *)
Theorem C1_zero_width (s : State) (r0 : DOMRect) (c l : Q) :
  wellFormed s = true ->
  containerRef s = Some r0 ->
  ~ c == l ->
  let s' := updatePosition (mkRect l 0) c s in
  (l < c -> sliderPosition s' = 100)
  /\ (c < l -> sliderPosition s' = 0)
  /\ positionUpdates s' = sliderPosition s' :: positionUpdates s
  /\ isFinite (sliderPosition s') = true
  /\ leq 0 (sliderPosition s') /\ leq (sliderPosition s') 100.
Proof.
  intros Hwf Hc Hne s'. subst s'.
  apply wellFormed_Inv in Hwf. destruct Hwf as [Hf _].
  rewrite (updatePosition_mounted r0 _ _ s Hc Hf). cbn [sliderPosition positionUpdates].
  rewrite percentage_zero_width.
  destruct (Qcompare_spec c l) as [E|E|E]; [contradiction| |];
    (repeat split; try reflexivity; try (intro; lra || reflexivity));
    cbn; lra.
Qed.

Lemma C1_zero_width_witness :
  let s := mount (mkRect 100 400) 0 in
  sliderPosition (updatePosition (mkRect 100 0) 90 s) = 0
  /\ sliderPosition (updatePosition (mkRect 100 0) 110 s) = 100.
Proof.
  split.
  - apply (C1_zero_width (mount (mkRect 100 400) 0) (mkRect 100 400) 90 100);
      [reflexivity | reflexivity | intro H; discriminate H | reflexivity].
  - apply (C1_zero_width (mount (mkRect 100 400) 0) (mkRect 100 400) 110 100);
      [reflexivity | reflexivity | intro H; discriminate H | reflexivity].
Defined.

(** ** ImageSlider: one update per frame *)

Lemma updateSliderPosition_keeps (c : number) (s : State) (r : DOMRect) :
  containerRef s = Some r ->
  framesInv s ->
  let s' := updateSliderPosition c s in
  containerRef s' = Some r
  /\ framesInv s'
  /\ sliderPosition s' = sliderPosition s
  /\ positionUpdates s' = positionUpdates s
  /\ frameCallbacks s' = [(S (lastFrameId s), c)]
  /\ animationFrameRef s' = Some (S (lastFrameId s)).
Proof.
  intros Hc Hf s'. subst s'.
  rewrite (updateSliderPosition_mounted c s r Hc Hf).
  unfold framesInv. cbn. repeat split; eauto.
Qed.

Lemma updates_keep (cs : list number) (s : State) (r : DOMRect) :
  containerRef s = Some r ->
  framesInv s ->
  let s' := fold_left (fun st x => updateSliderPosition x st) cs s in
  containerRef s' = Some r
  /\ framesInv s'
  /\ sliderPosition s' = sliderPosition s
  /\ positionUpdates s' = positionUpdates s.
Proof.
  revert s. induction cs as [|c cs IH]; intros s Hc Hf; cbn.
  - auto.
  - destruct (updateSliderPosition_keeps c s r Hc Hf)
      as (Hc' & Hf' & Hp & Hu & _).
    destruct (IH _ Hc' Hf') as (H1 & H2 & H3 & H4).
    repeat split; congruence.
Qed.

(** C3: after any sequence of calls of [updateSliderPosition] with no frame
    in between, one request is pending, that of the last call (each call
    cancelled the request of the one before); when the frame runs, one
    update is applied, of the percentage of the last coordinate. *)
Theorem C3_one_update_per_frame
    (s : State) (r : DOMRect) (cs : list number) (c : number) :
  wellFormed s = true ->
  containerRef s = Some r ->
  let s1 := fold_left (fun st x => updateSliderPosition x st) (cs ++ [c]) s in
  let s2 := step s1 AnimationFrame in
  (exists id, frameCallbacks s1 = [(id, c)] /\ animationFrameRef s1 = Some id)
  /\ positionUpdates s1 = positionUpdates s
  /\ positionUpdates s2 = percentage r c :: positionUpdates s
  /\ sliderPosition s2 = percentage r c
  /\ frameCallbacks s2 = [].
Proof.
  intros Hwf Hc s1 s2. subst s2 s1.
  apply wellFormed_Inv in Hwf. destruct Hwf as [Hf _].
  rewrite fold_left_app. cbn [fold_left step].
  destruct (updates_keep cs s r Hc Hf) as (Hc' & Hf' & Hp & Hu).
  set (s0 := fold_left _ cs s) in *.
  destruct (updateSliderPosition_keeps c s0 r Hc' Hf')
    as (Hc1 & Hf1 & Hp1 & Hu1 & Hfr & Har).
  rewrite (runFrame_single _ _ _ _ Hfr Hc1). cbn.
  repeat split; try congruence. eauto.
Qed.

Lemma C3_one_update_per_frame_witness :
  let s := mount (mkRect 100 400) 0 in
  let s1 :=
    fold_left (fun st x => updateSliderPosition x st)
      ([Fin 150; Fin 180] ++ [Fin 200]) s in
  positionUpdates (step s1 AnimationFrame)
  = percentage (mkRect 100 400) 200 :: positionUpdates s.
Proof.
  apply (C3_one_update_per_frame (mount (mkRect 100 400) 0) (mkRect 100 400)
           [Fin 150; Fin 180] 200 eq_refl eq_refl).
Defined.

(** ** ImageSlider: the drag *)

(** Splits a well-formed state as [break_inv] does and simplifies the other
    hypotheses on it. *)
Ltac break_wf s H :=
  apply wellFormed_Inv in H; break_inv s H; cbn in *;
  try discriminate; try congruence.

Lemma dragging_document (s : State) :
  Inv s ->
  containerRef s <> None ->
  phase s = Dragging ->
  documentListeners s = Some true
  /\ bodyUserSelect s = "none"%string
  /\ bodyCursor s = "col-resize"%string.
Proof.
  intros H Hc Hp.
  assert (Hd : isDragging s = true).
  { unfold phase in Hp. destruct (isDragging s); [reflexivity|].
    destruct (isHovering s); discriminate. }
  clear Hp. break_inv s H; cbn in *; subst; auto; congruence.
Qed.

Lemma move_ignored (s : State) (e : Event) :
  Inv s ->
  isDragging s = false ->
  isMove e = true ->
  step s e = s.
Proof.
  intros H Hd He. break_inv s H; cbn in Hd; subst;
    destruct e as [| |t|t c|t|t c|t|t c|t| |r|]; try discriminate;
    destruct t; reflexivity.
Qed.

Lemma moves_ignored (s : State) (es : list Event) :
  Inv s ->
  isDragging s = false ->
  forallb isMove es = true ->
  run es s = s.
Proof.
  intros H Hd. induction es as [|e es IH]; intro Hm; [reflexivity|].
  cbn in Hm. apply andb_true_iff in Hm. destruct Hm as [He Hes].
  cbn. rewrite (move_ignored s e H Hd He). now apply IH.
Qed.

(** C4: the code fails the claim.  The pointer enters and presses the
    handle: the widget is dragging, and the effect has put its listeners
    on [document], which do forward a move outside the widget to
    [updateSliderPosition].  But when the pointer leaves the widget with
    the button held, [onMouseLeave] ends the drag: the phase is [Idle],
    the listeners are removed, and the move outside that follows is
    lost. *)
Lemma C4_mouse_leave_ends_drag :
  let s := run [MouseEnter; MouseDown Handle] (mount (mkRect 100 400) 0) in
  let out := step s MouseLeave in
  phase s = Dragging
  /\ documentListeners s = Some true
  /\ frameCallbacks (step s (MouseMove Outside 900)) = [(1%nat, Fin 900)]
  /\ phase out = Idle
  /\ documentListeners out = None
  /\ step out (MouseMove Outside 900) = out.
Proof. vm_compute. repeat split. Qed.

(** C5, as the specification states it, fails: a press on the track of an
    idle widget, with the mouse or with a finger, leaves the phase [Idle]. *)
Lemma C5_track_press_stays_idle :
  let s := mount (mkRect 100 400) 0 in
  phase s = Idle
  /\ phase (step s (MouseDown Track)) = Idle
  /\ phase (step s (TouchStart Track)) = Idle.
Proof. vm_compute. auto. Qed.

(** C5, amended: while the phase is [Idle] or [Hovering], a press on the
    handle (mouse down or touch start) moves the phase to [Dragging],
    registers the listeners on [document], disables text selection and
    sets the resizing cursor on the body, and both stay set as long as the
    mounted widget is in [Dragging]; a press on the track changes
    nothing. *)
Theorem C5_press_on_handle
    (s : State) (r : DOMRect) (e : Event) (es : list Event) :
  wellFormed s = true ->
  containerRef s = Some r ->
  phase s <> Dragging ->
  (e = MouseDown Handle \/ e = TouchStart Handle ->
   let s' := step s e in
   phase s' = Dragging
   /\ documentListeners s' = Some true
   /\ bodyUserSelect s' = "none"%string
   /\ bodyCursor s' = "col-resize"%string
   /\ (let s'' := run es s' in
       containerRef s'' <> None -> phase s'' = Dragging ->
       bodyUserSelect s'' = "none"%string
       /\ bodyCursor s'' = "col-resize"%string))
  /\ (e = MouseDown Track \/ e = TouchStart Track -> step s e = s).
Proof.
  intros Hwf Hc Hp.
  assert (Hd : isDragging s = false).
  { unfold phase in Hp. destruct (isDragging s); congruence. }
  clear Hp. split.
  - intros He s'.
    assert (Hs' : Inv (run es s')).
    { apply Inv_run, Inv_step. now apply wellFormed_Inv. }
    assert (Hnow : phase s' = Dragging
                   /\ documentListeners s' = Some true
                   /\ bodyUserSelect s' = "none"%string
                   /\ bodyCursor s' = "col-resize"%string).
    { subst s'. clear Hs'.
      break_wf s Hwf; subst; destruct He as [-> | ->];
        repeat split; reflexivity. }
    destruct Hnow as (H1 & H2 & H3 & H4). repeat split; auto.
    + now apply (dragging_document _ Hs').
    + now apply (dragging_document _ Hs').
  - intros He. break_wf s Hwf; subst; destruct He as [-> | ->]; reflexivity.
Qed.

Lemma C5_press_on_handle_witness :
  let s := step (mount (mkRect 100 400) 0) MouseEnter in
  phase (step s (MouseDown Handle)) = Dragging
  /\ step s (MouseDown Track) = s.
Proof.
  split.
  - pose proof (C5_press_on_handle
                  (step (mount (mkRect 100 400) 0) MouseEnter)
                  (mkRect 100 400) (MouseDown Handle) []
                  eq_refl eq_refl) as H.
    destruct H as [H _]; [discriminate|].
    destruct (H (or_introl eq_refl)) as [H1 _]. exact H1.
  - pose proof (C5_press_on_handle
                  (step (mount (mkRect 100 400) 0) MouseEnter)
                  (mkRect 100 400) (MouseDown Track) []
                  eq_refl eq_refl) as H.
    destruct H as [_ H]; [discriminate|].
    exact (H (or_introl eq_refl)).
Defined.

(** C6, as the specification states it, fails: the pointer enters, presses
    the handle and releases it over the widget; the drag is over, and the
    phase is [Hovering], not [Idle]. *)
Lemma C6_release_inside_is_hovering :
  let s := run [MouseEnter; MouseDown Handle] (mount (mkRect 100 400) 0) in
  phase s = Dragging
  /\ phase (step s (MouseUp Handle)) = Hovering.
Proof. vm_compute. auto. Qed.

(** C6, amended: a release anywhere (a mouse up on the widget or outside
    it, the end of a touch that started on the widget) ends the drag: the
    phase is [Hovering] when the pointer is still over the widget and
    [Idle] otherwise, the listeners on [document] are removed, the style
    of the body is restored, and pointer or touch moves after the release
    change nothing, the position included. *)
Theorem C6_release_ends_drag
    (s : State) (r : DOMRect) (e : Event) (moves : list Event) :
  wellFormed s = true ->
  containerRef s = Some r ->
  isRelease e = true ->
  forallb isMove moves = true ->
  let s' := step s e in
  phase s' = (if isHovering s then Hovering else Idle)
  /\ documentListeners s' = None
  /\ bodyUserSelect s' = ""%string
  /\ bodyCursor s' = ""%string
  /\ run moves s' = s'.
Proof.
  intros Hwf Hc He Hm s'.
  assert (Hs' : Inv s') by now apply Inv_step, wellFormed_Inv.
  assert (H : phase s' = (if isHovering s then Hovering else Idle)
              /\ documentListeners s' = None
              /\ bodyUserSelect s' = ""%string
              /\ bodyCursor s' = ""%string
              /\ isDragging s' = false).
  { subst s'. clear Hs' Hm.
    break_wf s Hwf; subst;
      destruct e as [| |t|t c|t|t c|t|t c|t| |r'|]; try discriminate;
      destruct t; try discriminate; destruct d, h;
      step_cases; repeat split; reflexivity. }
  destruct H as (H1 & H2 & H3 & H4 & H5).
  repeat split; auto. now apply moves_ignored.
Qed.

Lemma C6_release_ends_drag_witness :
  let s :=
    run [MouseEnter; MouseDown Handle; MouseMove Handle 300]
      (mount (mkRect 100 400) 0) in
  let s' := step s (MouseUp Outside) in
  phase s = Dragging
  /\ documentListeners s = Some true
  /\ phase s' = Hovering
  /\ documentListeners s' = None
  /\ run [MouseMove Outside 700; MouseMove Track 200] s' = s'.
Proof.
  pose proof (C6_release_ends_drag
                (run [MouseEnter; MouseDown Handle; MouseMove Handle 300]
                   (mount (mkRect 100 400) 0))
                (mkRect 100 400) (MouseUp Outside)
                [MouseMove Outside 700; MouseMove Track 200]
                eq_refl eq_refl eq_refl eq_refl) as H.
  destruct H as (H0 & H1 & _ & _ & H2).
  split; [reflexivity|]. split; [reflexivity|].
  split; [exact H0 | split; [exact H1 | exact H2]].
Defined.

(** ** ImageSlider: the plain click *)

(** C7, as the specification states it, fails on its last part: the click
    goes through the same request for a frame as a drag move.  After a
    press, a release and a click on the track of a freshly mounted widget,
    the state is the one [updateSliderPosition] returns: the position is
    still 50, no update was applied, and the recompute waits for the
    frame. *)
Lemma C7_click_is_scheduled :
  let s := mount (mkRect 100 400) 0 in
  let s' := run [MouseDown Track; MouseUp Track; Click Track 300] s in
  s' = updateSliderPosition 300 s
  /\ sliderPosition s' = 50
  /\ positionUpdates s' = []
  /\ frameCallbacks s' = [(1%nat, Fin 300)].
Proof. vm_compute. auto. Qed.

(** C7, amended: a plain click on the track at [x] (press, release, click,
    the widget not dragging) never enters [Dragging] and has the effect of
    one call [updateSliderPosition(x)], which requests a frame as a drag
    move does; when the frame runs the position is updated once, to the
    percentage of [x]. *)
Theorem C7_plain_click (s : State) (r : DOMRect) (x : number) :
  wellFormed s = true ->
  containerRef s = Some r ->
  phase s <> Dragging ->
  let s1 := step s (MouseDown Track) in
  let s2 := step s1 (MouseUp Track) in
  let s3 := step s2 (Click Track x) in
  let s4 := step s3 AnimationFrame in
  phase s1 <> Dragging /\ phase s2 <> Dragging /\ phase s3 <> Dragging
  /\ s3 = updateSliderPosition x s
  /\ frameCallbacks s3 = [(S (lastFrameId s), x)]
  /\ positionUpdates s3 = positionUpdates s
  /\ positionUpdates s4 = percentage r x :: positionUpdates s
  /\ sliderPosition s4 = percentage r x.
Proof.
  intros Hwf Hc Hp.
  assert (Hd : isDragging s = false).
  { unfold phase in Hp. destruct (isDragging s); congruence. }
  clear Hp.
  break_wf s Hwf; subst; injection Hc as ->;
    try destruct ar as [[|n]|]; destruct h;
    step_cases; repeat split; try discriminate; reflexivity.
Qed.

Lemma C7_plain_click_witness :
  let s := step (mount (mkRect 100 400) 0) MouseEnter in
  sliderPosition
    (run [MouseDown Track; MouseUp Track; Click Track 300; AnimationFrame] s)
  = percentage (mkRect 100 400) 300.
Proof.
  pose proof (C7_plain_click (step (mount (mkRect 100 400) 0) MouseEnter)
                (mkRect 100 400) 300 eq_refl eq_refl) as H.
  destruct H as (_ & _ & _ & _ & _ & _ & _ & H); [discriminate|].
  exact H.
Defined.

(** ** ImageSlider: unmount *)

Lemma unmounted_ignores (s : State) (e : Event) :
  Inv s -> containerRef s = None -> step s e = s.
Proof.
  intros H Hc. break_inv s H; cbn in Hc; try discriminate.
  destruct d, e as [| |t|t c|t|t c|t|t c|t| |r|]; try destruct t;
    try destruct ar as [[|n]|]; reflexivity.
Qed.

Lemma unmounted_run (s : State) (es : list Event) :
  Inv s -> containerRef s = None -> run es s = s.
Proof.
  intros H Hc. induction es as [|e es IH]; [reflexivity|].
  cbn. now rewrite (unmounted_ignores s e H Hc).
Qed.

(** C8: unmounting a widget, dragging or not, leaves no frame request
    pending and no listener on [document], and restores the style of the
    body; whatever events follow, the state stays as the unmount left it:
    no update of the position is applied. *)
Theorem C8_unmount_cleans_up (s : State) (es : list Event) :
  wellFormed s = true ->
  let s' := step s Unmount in
  frameCallbacks s' = []
  /\ documentListeners s' = None
  /\ bodyUserSelect s' = ""%string
  /\ bodyCursor s' = ""%string
  /\ run es s' = s'
  /\ positionUpdates (run es s') = positionUpdates s
  /\ sliderPosition (run es s') = sliderPosition s.
Proof.
  intros Hwf s'.
  assert (Hs' : Inv s') by now apply Inv_step, wellFormed_Inv.
  assert (H : frameCallbacks s' = []
              /\ documentListeners s' = None
              /\ bodyUserSelect s' = ""%string
              /\ bodyCursor s' = ""%string
              /\ containerRef s' = None
              /\ positionUpdates s' = positionUpdates s
              /\ sliderPosition s' = sliderPosition s).
  { subst s'. clear Hs'. apply wellFormed_Inv in Hwf.
    break_inv s Hwf; try destruct ar as [[|n]|];
      step_cases; repeat split; reflexivity. }
  destruct H as (H1 & H2 & H3 & H4 & H5 & H6 & H7).
  rewrite (unmounted_run s' es Hs' H5). repeat split; assumption.
Qed.

Lemma C8_unmount_cleans_up_witness :
  let s :=
    run [MouseEnter; MouseDown Handle; MouseMove Handle 300]
      (mount (mkRect 100 400) 0) in
  phase s = Dragging
  /\ frameCallbacks s = [(2%nat, Fin 300)]
  /\ positionUpdates
       (run [AnimationFrame; MouseMove Outside 700; MouseUp Outside]
          (step s Unmount))
     = positionUpdates s.
Proof.
  split; [reflexivity|]. split; [reflexivity|].
  pose proof (C8_unmount_cleans_up
                (run [MouseEnter; MouseDown Handle; MouseMove Handle 300]
                   (mount (mkRect 100 400) 0))
                [AnimationFrame; MouseMove Outside 700; MouseUp Outside]
                eq_refl) as H.
  destruct H as (_ & _ & _ & _ & _ & H & _). exact H.
Defined.

(** ** ImageSlider: the percentage as a function of the pointer *)

(** A position is in range when it is [NaN] or a number from 0 to 100. *)
Definition inRange (p : number) : Prop :=
  isNaN p = true \/ (leq 0 p /\ leq p 100).


Lemma clamp_monotone (v v' lo hi : Q) :
  lo <= hi -> v <= v' -> clamp v lo hi <= clamp v' lo hi.
Proof.
  intros Hb H. unfold clamp.
  destruct (Qlt_le_dec v lo), (Qlt_le_dec v' lo); try lra;
    destruct (Qlt_le_dec hi v), (Qlt_le_dec hi v'); lra.
Qed.

Lemma offset_monotone (c c' l w : Q) :
  0 < w -> c <= c' -> (c - l) / w * 100 <= (c' - l) / w * 100.
Proof.
  intros Hw H. apply Qmult_le_compat_r; [|lra].
  unfold Qdiv. apply Qmult_le_compat_r; [lra|].
  apply Qinv_le_0_compat. lra.
Qed.

(** Whatever the rectangle and the coordinate, [NaN] and infinities
    included, the percentage is [NaN] or a number from 0 to 100: the two
    bounds let nothing else through. *)
Theorem percentage_in_range (rect : DOMRect) (clientX : number) :
  inRange (percentage rect clientX).
Proof.
  unfold percentage, inRange.
  generalize (mul (div (sub clientX (left rect)) (width rect)) 100).
  intros [| | |v]; cbn; auto.
  - right. destruct (Qlt_le_dec 0 100); cbn; lra.
  - right. lra.
  - right. destruct (Qlt_le_dec v 100); cbn.
    + destruct (Qlt_le_dec 0 v); cbn; lra.
    + destruct (Qlt_le_dec 0 100); cbn; lra.
Qed.

(** On a rectangle of positive width the percentage never decreases when
    the pointer moves to the right. *)
Theorem percentage_monotone (l w c c' : Q) :
  0 < w -> c <= c' ->
  leq (percentage (mkRect l w) c) (percentage (mkRect l w) c').
Proof.
  intros Hw H.
  destruct (percentage_clamp c l w Hw) as (p & -> & Hp).
  destruct (percentage_clamp c' l w Hw) as (p' & -> & Hp').
  cbn. rewrite Hp, Hp'. apply clamp_monotone; [lra|].
  now apply offset_monotone.
Qed.

Lemma percentage_monotone_witness :
  leq (percentage (mkRect 100 400) 150) (percentage (mkRect 100 400) 320).
Proof.
  apply (percentage_monotone 100 400 150 320); [reflexivity | discriminate].
Defined.



(** ** ImageSlider: what changes the position, and when *)

Definition isFrame (e : Event) : bool :=
  match e with
  | AnimationFrame => true
  | _ => false
  end.

Lemma updateSliderPosition_position (c : number) (s : State) :
  sliderPosition (updateSliderPosition c s) = sliderPosition s
  /\ positionUpdates (updateSliderPosition c s) = positionUpdates s.
Proof.
  break_state s. unfold updateSliderPosition, cancelPending. cbn.
  destruct cr; [|auto]. destruct ar as [[|n]|]; cbn; auto.
Qed.

(** No handler sets the position itself: whatever the state, an event
    other than the animation frame leaves the position as it is and calls
    [setSliderPosition] not once. *)
Theorem position_changes_on_frames_only (s : State) (e : Event) :
  isFrame e = false ->
  sliderPosition (step s e) = sliderPosition s
  /\ positionUpdates (step s e) = positionUpdates s.
Proof.
  intro He. break_state s.
  destruct e as [| |t|t c|t|t c|t|t c|t| |r|]; try discriminate;
    try destruct t; destruct cr, d, dl as [[|]|], ar as [[|n]|];
    cbn; auto.
Qed.

Lemma position_changes_on_frames_only_witness :
  let s :=
    run [MouseEnter; MouseDown Handle] (mount (mkRect 100 400) 0) in
  sliderPosition (step s (MouseMove Track 300)) = sliderPosition s
  /\ positionUpdates (step s (MouseMove Track 300)) = positionUpdates s.
Proof.
  apply (position_changes_on_frames_only
           (run [MouseEnter; MouseDown Handle] (mount (mkRect 100 400) 0))
           (MouseMove Track 300)).
  reflexivity.
Defined.

Lemma frameCallbacks_fold
    (P : State -> Prop) (l : list (nat * number)) (s : State) :
  (forall c st, P st -> P (frameCallback c st)) ->
  P s ->
  P (fold_left (fun st c => frameCallback (snd c) st) l s).
Proof.
  intro Hstep. revert s. induction l as [|c l IH]; intros s Hs; cbn; auto.
Qed.

Lemma step_in_range (s : State) (e : Event) :
  inRange (sliderPosition s) -> inRange (sliderPosition (step s e)).
Proof.
  intro H. destruct (isFrame e) eqn:He.
  - destruct e; try discriminate. cbn [step]. unfold runFrame.
    apply (frameCallbacks_fold (fun st => inRange (sliderPosition st))).
    + intros c st Hst. unfold frameCallback.
      destruct (containerRef st); [apply percentage_in_range | exact Hst].
    + exact H.
  - now rewrite (proj1 (position_changes_on_frames_only s e He)).
Qed.

(** From the mount on, whatever events arrive and whatever numbers they
    and the measured rectangles carry, the position is [NaN] or a number
    from 0 to 100: it is never an infinity and never out of range. *)
Theorem position_always_in_range
    (rect : DOMRect) (fid : nat) (es : list Event) :
  inRange (sliderPosition (run es (mount rect fid))).
Proof.
  assert (H : forall s, inRange (sliderPosition s) ->
                        inRange (sliderPosition (run es s))).
  { induction es as [|e es IH]; intros s Hs; [exact Hs|].
    cbn. apply IH. now apply step_in_range. }
  apply H. right. cbn. lra.
Qed.

(** The updates are paced by the frames: in a well-formed state a frame
    applies at most one update, so from the mount on [setSliderPosition]
    has been called at most as many times as frames have run. *)
Theorem updates_at_most_frames
    (rect : DOMRect) (fid : nat) (es : list Event) :
  (List.length (positionUpdates (run es (mount rect fid)))
   <= List.length (filter isFrame es))%nat.
Proof.
  assert (H : forall s, Inv s ->
    (List.length (positionUpdates (run es s))
     <= List.length (positionUpdates s) + List.length (filter isFrame es))%nat).
  { induction es as [|e es IH]; intros s Hs; [cbn; lia|].
    cbn [run fold_left]. specialize (IH (step s e) (Inv_step s e Hs)).
    unfold run in IH.
    destruct (isFrame e) eqn:He; cbn [filter]; rewrite He.
    - assert (H1 : (List.length (positionUpdates (step s e))
                    <= S (List.length (positionUpdates s)))%nat).
      { destruct e; try discriminate. clear IH He.
        break_inv s Hs; try destruct d; step_cases; lia. }
      cbn [List.length]. lia.
    - rewrite (proj2 (position_changes_on_frames_only s e He)) in IH.
      exact IH. }
  specialize (H (mount rect fid) (Inv_mount rect fid)). cbn in H. exact H.
Qed.

(** The listeners on [document] and the inline style of the body follow
    the drag in every state reached from the mount: registered and set
    while the mounted widget is dragging, absent and empty otherwise; no
    listener outlives the drag or the widget. *)
Theorem document_follows_drag
    (rect : DOMRect) (fid : nat) (es : list Event) :
  let s := run es (mount rect fid) in
  let dragging :=
    match containerRef s with
    | Some _ => isDragging s
    | None => false
    end in
  documentListeners s = (if dragging then Some true else None)
  /\ bodyUserSelect s = (if dragging then "none" else "")%string
  /\ bodyCursor s = (if dragging then "col-resize" else "")%string.
Proof.
  intros s dragging. subst dragging.
  assert (H : Inv s) by apply Inv_run, Inv_mount.
  destruct H as [_ H]. unfold documentInv in H.
  destruct (containerRef s); tauto.
Qed.

(** If the frame runs while [containerRef.current] is [null], every
    pending callback returns at its guard: no update is applied, whatever
    was pending. *)
Theorem detached_frame_applies_nothing (s : State) :
  containerRef s = None ->
  sliderPosition (runFrame s) = sliderPosition s
  /\ positionUpdates (runFrame s) = positionUpdates s
  /\ frameCallbacks (runFrame s) = [].
Proof.
  intro Hc. unfold runFrame.
  apply (frameCallbacks_fold
           (fun st => containerRef st = None
                      /\ sliderPosition st = sliderPosition s
                      /\ positionUpdates st = positionUpdates s
                      /\ frameCallbacks st = [])).
  - intros c st (H1 & H2). unfold frameCallback. rewrite H1. auto.
  - break_state s. cbn in *. auto.
Qed.

Lemma detached_frame_applies_nothing_witness :
  let s :=
    setContainerRef None
      (updateSliderPosition 300 (mount (mkRect 100 400) 0)) in
  frameCallbacks s = [(1%nat, Fin 300)]
  /\ positionUpdates (runFrame s) = positionUpdates s.
Proof.
  split; [reflexivity|].
  apply (detached_frame_applies_nothing
           (setContainerRef None
              (updateSliderPosition 300 (mount (mkRect 100 400) 0)))).
  reflexivity.
Defined.

(** ** ImageSlider: moves during a drag, and the measure at the frame *)

(** The coordinate a move carries to a handler: a mouse move reaches a
    handler wherever it is targeted during a drag, a touch move when the
    touch started on the widget. *)
Definition moveCoordinate (e : Event) : option number :=
  match e with
  | MouseMove _ clientX => Some clientX
  | TouchMove t clientX => if inside t then Some clientX else None
  | _ => None
  end.

(** While the widget is dragging, a move on the widget, or a mouse move
    outside it, leaves one request pending, for the coordinate of the
    move; the phase and the position stay, and the frame that follows
    applies the percentage of that coordinate. *)
Theorem drag_move_is_forwarded
    (s : State) (r : DOMRect) (e : Event) (x : number) :
  wellFormed s = true ->
  containerRef s = Some r ->
  phase s = Dragging ->
  moveCoordinate e = Some x ->
  let s' := step s e in
  (exists id, frameCallbacks s' = [(id, x)] /\ animationFrameRef s' = Some id)
  /\ phase s' = Dragging
  /\ sliderPosition s' = sliderPosition s
  /\ sliderPosition (step s' AnimationFrame) = percentage r x
  /\ positionUpdates (step s' AnimationFrame)
     = percentage r x :: positionUpdates s.
Proof.
  intros Hwf Hc Hp He.
  assert (Hd : isDragging s = true).
  { unfold phase in Hp. destruct (isDragging s); [reflexivity|].
    destruct (isHovering s); discriminate. }
  clear Hp. break_wf s Hwf; subst; injection Hc as ->;
    destruct e as [| |t|t c|t|t c|t|t c|t| |r'|]; try discriminate;
    destruct t; try discriminate; injection He as ->;
    try destruct ar as [[|n]|]; step_cases; repeat split; eauto.
Qed.

Lemma drag_move_is_forwarded_witness :
  let s := run [MouseEnter; MouseDown Handle] (mount (mkRect 100 400) 0) in
  sliderPosition (run [MouseMove Outside 900; AnimationFrame] s)
  = percentage (mkRect 100 400) 900.
Proof.
  pose proof (drag_move_is_forwarded
                (run [MouseEnter; MouseDown Handle] (mount (mkRect 100 400) 0))
                (mkRect 100 400) (MouseMove Outside 900) 900
                eq_refl eq_refl eq_refl eq_refl) as H.
  destruct H as (_ & _ & _ & H & _). exact H.
Defined.

Lemma last_cons (r r0 : DOMRect) (rs : list DOMRect) :
  last (r :: rs) r0 = last rs r.
Proof.
  revert r r0. induction rs as [|r' rs IH]; intros r r0; [reflexivity|].
  change (last (r :: r' :: rs) r0) with (last (r' :: rs) r0).
  now rewrite !IH.
Qed.

Lemma layouts_keep (rs : list DOMRect) (s : State) (r0 : DOMRect) :
  containerRef s = Some r0 ->
  let s' := run (map Layout rs) s in
  containerRef s' = Some (last rs r0)
  /\ frameCallbacks s' = frameCallbacks s
  /\ positionUpdates s' = positionUpdates s.
Proof.
  revert s r0. induction rs as [|r rs IH]; intros s r0 Hc; [cbn; auto|].
  cbn [map run fold_left step]. rewrite Hc.
  destruct (IH (setContainerRef (Some r) s) r eq_refl) as (H1 & H2 & H3).
  unfold run in H1, H2, H3. cbn in H2, H3. cbv zeta.
  split; [|split; assumption].
  rewrite H1. now rewrite last_cons.
Qed.

(** The rectangle is read when the frame runs, not when the pointer
    moved: if the element is measured anew any number of times between
    the call of [updateSliderPosition] and the frame, the update is the
    percentage of the last measure. *)
Theorem frame_reads_last_measure
    (s : State) (r0 : DOMRect) (c : number) (rs : list DOMRect) :
  wellFormed s = true ->
  containerRef s = Some r0 ->
  let s' :=
    run (map Layout rs ++ [AnimationFrame]) (updateSliderPosition c s) in
  sliderPosition s' = percentage (last rs r0) c
  /\ positionUpdates s' = percentage (last rs r0) c :: positionUpdates s.
Proof.
  intros Hwf Hc s'. subst s'.
  apply wellFormed_Inv in Hwf. destruct Hwf as [Hf _].
  destruct (updateSliderPosition_keeps c s r0 Hc Hf)
    as (Hc1 & _ & _ & Hu1 & Hfr & _).
  unfold run. rewrite fold_left_app. cbn [fold_left step].
  destruct (layouts_keep rs _ r0 Hc1) as (H1 & H2 & H3). unfold run in *.
  rewrite Hfr in H2.
  rewrite (runFrame_single _ _ _ _ H2 H1). cbn.
  split; [reflexivity|]. now rewrite H3, Hu1.
Qed.

Lemma frame_reads_last_measure_witness :
  let s := mount (mkRect 100 400) 0 in
  sliderPosition
    (run (map Layout [mkRect 100 300; mkRect 0 200] ++ [AnimationFrame])
       (updateSliderPosition 150 s))
  = percentage (mkRect 0 200) 150.
Proof.
  pose proof (frame_reads_last_measure (mount (mkRect 100 400) 0)
                (mkRect 100 400) 150 [mkRect 100 300; mkRect 0 200]
                eq_refl eq_refl) as H.
  destruct H as [H _]. exact H.
Defined.

(** ** ImageSlider: measurable rectangles and finite coordinates *)

(** A rectangle with a finite left edge and a finite, positive width. *)
Definition measurable (r : DOMRect) : bool :=
  match left r, width r with
  | Fin _, Fin w => if Qlt_le_dec 0 w then true else false
  | _, _ => false
  end.

(** An event whose coordinate is finite and whose rectangle is
    measurable. *)
Definition wellMeasured (e : Event) : bool :=
  match e with
  | MouseMove _ x | Click _ x | TouchMove _ x => isFinite x
  | Layout r => measurable r
  | _ => true
  end.

Definition percent (p : number) : Prop :=
  exists q : Q, p = Fin q /\ 0 <= q /\ q <= 100.

Definition measuredInv (s : State) : Prop :=
  match containerRef s with
  | Some r => measurable r = true
  | None => True
  end
  /\ Forall (fun c => isFinite (snd c) = true) (frameCallbacks s)
  /\ percent (sliderPosition s).

Lemma percentage_percent (r : DOMRect) (x : number) :
  measurable r = true -> isFinite x = true -> percent (percentage r x).
Proof.
  destruct r as [[| | |l] [| | |w]], x as [| | |c]; try discriminate.
  unfold measurable. cbn. destruct (Qlt_le_dec 0 w) as [Hw|]; [|discriminate].
  intros _ _. destruct (percentage_clamp c l w Hw) as (p & Hp & Hq).
  exists p. split; [exact Hp|]. rewrite Hq. apply clamp_bounds. lra.
Qed.

Ltac step_cases_measured :=
  cbv -[percentage Nat.eqb measurable isFinite percent];
  repeat (rewrite Nat.eqb_refl;
          cbv -[percentage Nat.eqb measurable isFinite percent]).

Lemma measuredInv_step (s : State) (e : Event) :
  Inv s -> measuredInv s -> wellMeasured e = true -> measuredInv (step s e).
Proof.
  intros H (Hr & Hfr & Hp) He. break_inv s H; cbn in Hr, Hfr, Hp.
  - destruct d, e as [| |t|t c|t|t c|t|t c|t| |r|]; try destruct t;
      try destruct ar as [[|n]|]; cbn in He;
      step_cases_measured; repeat split; auto.
  - inversion Hfr as [|? ? Hx _]; subst. cbn in Hx.
    destruct d, e as [| |t|t c|t|t c|t|t c|t| |r|]; try destruct t;
      cbn in He; step_cases_measured; repeat split; auto;
      now apply percentage_percent.
  - destruct d, e as [| |t|t c|t|t c|t|t c|t| |r|]; try destruct t;
      try destruct ar as [[|n]|]; cbn in He;
      step_cases_measured; repeat split; auto.
Qed.

(** When the element is measurable at the mount and at every later
    measure, and every pointer coordinate is finite, the position is a
    number from 0 to 100 in every state reached: it is never [NaN]. *)
Theorem position_is_a_percent
    (rect : DOMRect) (fid : nat) (es : list Event) :
  measurable rect = true ->
  forallb wellMeasured es = true ->
  exists q : Q,
    sliderPosition (run es (mount rect fid)) = Fin q /\ 0 <= q /\ q <= 100.
Proof.
  intros Hr Hes.
  assert (H : forall s, Inv s -> measuredInv s -> measuredInv (run es s)).
  { induction es as [|e es IH]; intros s Hi Hm; [exact Hm|].
    cbn in Hes. apply andb_true_iff in Hes. destruct Hes as [He Hes].
    cbn. apply (IH Hes); [now apply Inv_step | now apply measuredInv_step]. }
  destruct (H (mount rect fid) (Inv_mount rect fid)) as (_ & _ & Hp).
  - repeat split; [exact Hr | constructor |].
    exists 50. cbn. repeat split; lra.
  - exact Hp.
Qed.

Lemma position_is_a_percent_witness :
  exists q : Q,
    sliderPosition
      (run [MouseEnter; MouseDown Handle; MouseMove Handle 300;
            Layout (mkRect 0 200); AnimationFrame]
         (mount (mkRect 100 400) 0))
    = Fin q /\ 0 <= q /\ q <= 100.
Proof.
  apply (position_is_a_percent (mkRect 100 400) 0
           [MouseEnter; MouseDown Handle; MouseMove Handle 300;
            Layout (mkRect 0 200); AnimationFrame]);
    reflexivity.
Defined.

(** ** ImageSlider: what the JSX renders *)

(** The parts of the JSX that depend on the state.  A length in percent is
    kept as the number the template string prints; a class list is the
    list of the arguments of [cn] that are strings, in their order. *)
Record View : Type := mkView {
  containerClasses : list string;
  beforeFilter : string;
  afterClipLeft : number;
  afterFilter : string;
  lineClasses : list string;
  lineLeft : number;
  handleClasses : list string;
  handleLeft : number;
  knobClasses : list string;
  beforeLabelInverted : bool;
  afterLabelInverted : bool;
  labelTransition : string;
  readout : number
}.

(** [className] is the prop of that name, [None] when it is not given. *)
Definition render (className : option string) (s : State) : View :=
  mkView
    ("relative overflow-hidden rounded-lg cursor-col-resize select-none bg-card"%string
     :: List.app (if isDragging s then ["cursor-grabbing"%string] else [])
          match className with Some c => [c] | None => [] end)
    (if isDragging s then "brightness(0.9)" else "brightness(1)")
    (sliderPosition s)
    (if isDragging s then "brightness(1.1)" else "brightness(1)")
    ("absolute top-0 bottom-0 bg-white shadow-lg z-20"%string
     :: (if isDragging s then "w-1" else "w-0.5")%string
     :: (if isHovering s && negb (isDragging s) then ["w-1"%string] else []))
    (sliderPosition s)
    ("absolute top-1/2 z-30 cursor-grab"%string
     :: (if isDragging s then "cursor-grabbing scale-110" else "cursor-grab")%string
     :: (if isHovering s && negb (isDragging s)
         then ["scale-105"%string] else []))
    (sliderPosition s)
    ("w-10 h-10 bg-white rounded-full shadow-lg flex items-center justify-center"%string
     :: (if isDragging s then "shadow-xl bg-primary text-white"
         else "bg-white text-primary")%string
     :: (if isHovering s then ["shadow-xl"%string] else []))
    (ltb (sliderPosition s) 25)
    (ltb 75 (sliderPosition s))
    (if isDragging s then "none" else "all 0.3s ease")
    (Math_round (sliderPosition s)).

(** The two labels are never inverted together, whatever the position:
    the label of the before side is inverted exactly for a position below
    25, the label of the after side exactly for one above 75, and none for
    a position that is [NaN]. *)
Theorem labels_inverted_apart (className : option string) (s : State) :
  let v := render className s in
  beforeLabelInverted v && afterLabelInverted v = false
  /\ (forall q : Q, sliderPosition s = Fin q ->
      (beforeLabelInverted v = true <-> q < 25)
      /\ (afterLabelInverted v = true <-> 75 < q))
  /\ (sliderPosition s = NaN ->
      beforeLabelInverted v = false /\ afterLabelInverted v = false).
Proof.
  intro v. subst v. cbn [render beforeLabelInverted afterLabelInverted].
  destruct (sliderPosition s) as [| | |q]; cbn [ltb].
  - split; [reflexivity|]. split; [intros q' H; discriminate | auto].
  - split; [reflexivity|]. split; intros; discriminate.
  - split; [reflexivity|]. split; intros; discriminate.
  - destruct (Qlt_le_dec q 25), (Qlt_le_dec 75 q);
      (split; [try reflexivity; exfalso; lra|]);
      (split; [|intros; discriminate]);
      intros q' [= <-]; split; split; intros;
      try reflexivity; try lra; try discriminate.
Qed.

(** For a position that is a number from 0 to 100 the readout is a whole
    number from 0 to 100, the nearest to the position, a half going up. *)
Theorem readout_is_nearest_percent
    (className : option string) (s : State) (q : Q) :
  sliderPosition s = Fin q ->
  0 <= q -> q <= 100 ->
  exists z : Z,
    readout (render className s) = Fin (inject_Z z)
    /\ (0 <= z <= 100)%Z
    /\ q - (1 # 2) < inject_Z z /\ inject_Z z <= q + (1 # 2).
Proof.
  intros Hp H0 H100. cbn. rewrite Hp. cbn.
  exists (Qfloor (q + (1 # 2))). split; [reflexivity|].
  pose proof (Qfloor_le (q + (1 # 2))) as Hle.
  pose proof (Qlt_floor (q + (1 # 2))) as Hlt.
  rewrite inject_Z_plus in Hlt. change (inject_Z 1) with 1 in Hlt.
  repeat split; try lra.
  - change 0%Z with (Qfloor 0). apply Qfloor_resp_le. lra.
  - apply Z.le_trans with (Qfloor (100 + (1 # 2))).
    + apply Qfloor_resp_le. lra.
    + vm_compute. discriminate.
Qed.

Lemma readout_is_nearest_percent_witness :
  let s := updatePosition (mkRect 0 200) 51 (mount (mkRect 0 200) 0) in
  exists z : Z,
    readout (render None s) = Fin (inject_Z z)
    /\ (0 <= z <= 100)%Z
    /\ (5100 # 200) - (1 # 2) < inject_Z z /\ inject_Z z <= (5100 # 200) + (1 # 2).
Proof.
  apply (readout_is_nearest_percent None
           (updatePosition (mkRect 0 200) 51 (mount (mkRect 0 200) 0))
           (5100 # 200)).
  - vm_compute. reflexivity.
  - discriminate.
  - discriminate.
Defined.

(** The handle and the divider show the phase: the handle is scaled to
    110% exactly in [Dragging] and to 105% exactly in [Hovering], and the
    divider gets its wide class exactly when the phase is not [Idle]; the
    hover classes are left out during a drag. *)
Theorem affordances_follow_phase (className : option string) (s : State) :
  let v := render className s in
  (In "cursor-grabbing scale-110"%string (handleClasses v)
   <-> phase s = Dragging)
  /\ (In "scale-105"%string (handleClasses v) <-> phase s = Hovering)
  /\ (In "w-1"%string (lineClasses v) <-> phase s <> Idle).
Proof.
  intro v. subst v. unfold phase. cbn [render handleClasses lineClasses].
  destruct (isDragging s), (isHovering s); cbn;
    intuition (try discriminate; try congruence).
Qed.

End ImageSlider.

(** ** The position in binary64

    The expression of the frame callback on the primitive binary64 numbers
    of the kernel, whose operations round to nearest, ties to even, as
    those of JavaScript do. *)

From Stdlib Require Import ZArith Floats.

Module Binary64.

Local Open Scope float_scope.

(** [Math.min(a, b)] and [Math.max(a, b)]: [NaN] as soon as an argument
    is, and [-0] below [+0]. *)
Definition Math_min (a b : float) : float :=
  if is_nan a || is_nan b then nan
  else if a <? b then a
  else if b <? a then b
  else if is_zero a && (get_sign a || get_sign b) then neg_zero
  else a.

Definition Math_max (a b : float) : float :=
  if is_nan a || is_nan b then nan
  else if a <? b then b
  else if b <? a then a
  else if is_zero a && negb (get_sign a && get_sign b) then zero
  else a.

(** The two fields of [getBoundingClientRect()] the component reads. *)
Record DOMRect : Type := mkRect { left : float; width : float }.

(** [const percentage = Math.max(0, Math.min(100, (x / rect.width) * 100))]
    with [const x = clientX - rect.left] *)
Definition percentage (rect : DOMRect) (clientX : float) : float :=
  let x := clientX - left rect in
  Math_max 0 (Math_min 100 ((x / width rect) * 100)).

(** The callback of [requestAnimationFrame], as a function of the
    position: with no element the position stays, otherwise
    [setSliderPosition(percentage)] replaces it. *)
Definition frameCallback (containerRef : option DOMRect) (clientX : float)
    (sliderPosition : float) : float :=
  match containerRef with
  | None => sliderPosition
  | Some rect => percentage rect clientX
  end.

(** [clamp(v, lo, hi)] in the words of the specification. *)
Definition clamp (v lo hi : float) : float :=
  if v <? lo then lo
  else if hi <? v then hi
  else v.

(** *** Rounding never makes a NaN *)

Lemma shr_1_nonneg (mrs : shr_record) :
  (0 <= shr_m mrs)%Z -> (0 <= shr_m (shr_1 mrs))%Z.
Proof.
  destruct mrs as [m r s]. cbn.
  destruct m as [|[p|p|]|[p|p|]]; cbn; lia.
Qed.

Lemma iter_pos_nonneg (n : positive) (mrs : shr_record) :
  (0 <= shr_m mrs)%Z -> (0 <= shr_m (iter_pos shr_1 n mrs))%Z.
Proof.
  revert mrs. induction n as [n IH|n IH|]; intros mrs H; cbn.
  - apply IH, IH, shr_1_nonneg, H.
  - apply IH, IH, H.
  - apply shr_1_nonneg, H.
Qed.

Lemma shr_fexp_nonneg (m e : Z) (l : location) :
  (0 <= m)%Z -> (0 <= shr_m (fst (shr_fexp prec emax m e l)))%Z.
Proof.
  intro H. unfold shr_fexp, shr.
  assert (H0 : (0 <= shr_m (shr_record_of_loc m l))%Z).
  { destruct l as [|[| |]]; exact H. }
  destruct (_ - e)%Z; cbn [fst]; auto using iter_pos_nonneg.
Qed.

Lemma round_nearest_even_nonneg (m : Z) (l : location) :
  (0 <= m)%Z -> (0 <= round_nearest_even m l)%Z.
Proof.
  intro H. destruct l as [|[| |]]; cbn; try assumption.
  - destruct (Z.even m); lia.
  - lia.
Qed.

Lemma binary_round_aux_not_nan (sx : bool) (mx ex : Z) (lx : location) :
  (0 <= mx)%Z -> binary_round_aux prec emax sx mx ex lx <> S754_nan.
Proof.
  intro H. unfold binary_round_aux.
  pose proof (shr_fexp_nonneg mx ex lx H) as H1.
  destruct (shr_fexp prec emax mx ex lx) as [mrs' e']. cbn [fst] in H1.
  pose proof (shr_fexp_nonneg _ e' loc_Exact
                (round_nearest_even_nonneg _ (loc_of_shr_record mrs') H1)) as H2.
  destruct (shr_fexp prec emax _ e' loc_Exact) as [mrs'' e'']. cbn [fst] in H2.
  destruct (shr_m mrs''); [discriminate | | lia].
  destruct (Z.leb _ _); discriminate.
Qed.

Lemma binary_normalize_not_nan (m e : Z) (szero : bool) :
  binary_normalize prec emax m e szero <> S754_nan.
Proof.
  unfold binary_normalize, binary_round.
  destruct m as [|p|p]; [discriminate | |];
    destruct (shl_align _ _ _) as [mz ez];
    apply binary_round_aux_not_nan; lia.
Qed.

Definition finiteSF (x : spec_float) : Prop :=
  match x with
  | S754_zero _ | S754_finite _ _ _ => True
  | _ => False
  end.

Lemma SFsub_not_nan (x y : spec_float) :
  finiteSF x -> finiteSF y -> SF64sub x y <> S754_nan.
Proof.
  destruct x as [sx|sx| |sx mx ex], y as [sy|sy| |sy my ey];
    cbn; try tauto; intros _ _.
  - destruct sx, sy; discriminate.
  - discriminate.
  - discriminate.
  - apply binary_normalize_not_nan.
Qed.

Lemma SFdiv_not_nan (x : spec_float) (m : positive) (e : Z) :
  x <> S754_nan -> SF64div x (S754_finite false m e) <> S754_nan.
Proof.
  destruct x as [sx|sx| |sx mx ex]; cbn; try discriminate; [tauto|].
  intros _. unfold SFdiv_core_binary.
  set (m' := match _ with Zpos _ => _ | Z0 => _ | Zneg _ => _ end).
  assert (Hm : (0 <= m')%Z).
  { subst m'. destruct (_ - _ - _)%Z; try lia. apply Z.shiftl_nonneg. lia. }
  pose proof (Z.div_pos m' (Zpos m) Hm ltac:(lia)) as Hq.
  unfold Z.div in Hq. destruct (Z.div_eucl m' (Zpos m)) as [q r].
  now apply binary_round_aux_not_nan.
Qed.

Lemma SFmul_not_nan (x : spec_float) (m : positive) (e : Z) :
  x <> S754_nan -> SF64mul x (S754_finite false m e) <> S754_nan.
Proof.
  destruct x as [sx|sx| |sx mx ex]; cbn; try discriminate; [tauto|].
  intros _. apply binary_round_aux_not_nan. lia.
Qed.

(** *** The order of binary64 *)

Lemma SFcompare_antisym (x y : spec_float) :
  SFcompare y x = option_map CompOpp (SFcompare x y).
Proof.
  destruct x as [sx|sx| |sx mx ex], y as [sy|sy| |sy my ey]; cbn;
    try reflexivity;
    try (destruct sx; reflexivity); try (destruct sy; reflexivity);
    try (destruct sx, sy; reflexivity).
  destruct sx, sy; cbn; try reflexivity;
    rewrite (Z.compare_antisym ex ey);
    destruct (ex ?= ey)%Z; cbn; try reflexivity;
    rewrite (Pos.compare_cont_antisym mx my Eq); cbn;
    now destruct (Pos.compare_cont Eq mx my).
Qed.

Lemma SFcompare_None (x y : spec_float) :
  SFcompare x y = None -> x = S754_nan \/ y = S754_nan.
Proof.
  destruct x as [sx|sx| |sx mx ex], y as [sy|sy| |sy my ey]; cbn;
    intro H; try discriminate H; auto;
    try (destruct sx; discriminate H); try (destruct sy; discriminate H).
Qed.

Lemma is_nan_Prim2SF (x : float) :
  is_nan x = false <-> Prim2SF x <> S754_nan.
Proof.
  unfold is_nan. rewrite eqb_spec. unfold SFeqb.
  destruct (Prim2SF x) as [s|s| |s m e]; cbn.
  - intuition discriminate.
  - destruct s; intuition discriminate.
  - intuition congruence.
  - destruct s; rewrite Z.compare_refl, Pos.compare_cont_refl; cbn;
      intuition discriminate.
Qed.

Lemma is_finite_Prim2SF (x : float) :
  is_finite x = true -> finiteSF (Prim2SF x).
Proof.
  unfold is_finite, is_nan, is_infinity.
  rewrite !eqb_spec, abs_spec. change (Prim2SF infinity) with (S754_infinity false).
  destruct (Prim2SF x) as [s|[|]| |s m e]; cbn; auto; discriminate.
Qed.

Lemma is_finite_not_nan (x : float) : is_finite x = true -> is_nan x = false.
Proof.
  intro H. apply is_nan_Prim2SF. apply is_finite_Prim2SF in H.
  destruct (Prim2SF x); cbn in H; try tauto; discriminate.
Qed.

Lemma positive_Prim2SF (w : float) :
  is_finite w = true -> (0 <? w) = true ->
  exists m e, Prim2SF w = S754_finite false m e.
Proof.
  intros Hf Hp. apply is_finite_Prim2SF in Hf. rewrite ltb_spec in Hp.
  change (Prim2SF 0) with (S754_zero false) in Hp. unfold SFltb in Hp.
  destruct (Prim2SF w) as [s|s| |s m e]; cbn in *; try tauto; try discriminate.
  destruct s; [discriminate | eauto].
Qed.

Lemma ltb_asym (a b : float) : (a <? b) = true -> (b <? a) = false.
Proof.
  rewrite !ltb_spec. unfold SFltb.
  rewrite (SFcompare_antisym (Prim2SF a) (Prim2SF b)).
  now destruct (SFcompare (Prim2SF a) (Prim2SF b)) as [[| |]|].
Qed.

Lemma ltb_leb (a b : float) : (a <? b) = true -> (a <=? b) = true.
Proof.
  rewrite ltb_spec, leb_spec. unfold SFltb, SFleb.
  now destruct (SFcompare (Prim2SF a) (Prim2SF b)) as [[| |]|].
Qed.

Lemma eqb_of_not_ltb (a b : float) :
  is_nan a = false -> is_nan b = false ->
  (a <? b) = false -> (b <? a) = false -> (a =? b) = true.
Proof.
  intros Ha Hb. apply is_nan_Prim2SF in Ha, Hb.
  rewrite !ltb_spec, eqb_spec. unfold SFltb, SFeqb.
  rewrite (SFcompare_antisym (Prim2SF a) (Prim2SF b)).
  destruct (SFcompare (Prim2SF a) (Prim2SF b)) as [[| |]|] eqn:E; cbn;
    try discriminate; auto.
  destruct (SFcompare_None _ _ E); contradiction.
Qed.

Lemma eqb_refl (a : float) : is_nan a = false -> (a =? a) = true.
Proof. unfold is_nan. now destruct (a =? a). Qed.

(** Above 100, or equal to it, is above 0. *)
Lemma above_100_positive (v : float) :
  (100 <? v) = true \/ (100 =? v) = true -> (0 <? v) = true.
Proof.
  rewrite !ltb_spec, eqb_spec. unfold SFltb, SFeqb.
  change (Prim2SF 0) with (S754_zero false).
  change (Prim2SF 100) with (S754_finite false 7036874417766400 (-46)).
  destruct (Prim2SF v) as [s|s| |s m e]; cbn; try (intros [H|H]; discriminate).
  - destruct s; [intros [H|H]; discriminate | reflexivity].
  - destruct s; [intros [H|H]; discriminate | reflexivity].
Qed.

(** *** The two bounds *)

Lemma Math_min_100 (v : float) :
  is_nan v = false ->
  Math_min 100 v = if 100 <? v then 100 else if v <? 100 then v else 100.
Proof.
  intro H. unfold Math_min. rewrite H.
  change (is_nan 100) with false. change (is_zero 100) with false.
  reflexivity.
Qed.

Lemma Math_max_0 (m : float) :
  is_nan m = false ->
  Math_max 0 m = if 0 <? m then m else 0.
Proof.
  intro H. unfold Math_max. rewrite H.
  change (is_nan 0) with false. change (is_zero 0) with true.
  change (get_sign 0) with false. cbn.
  destruct (0 <? m); [reflexivity|]. now destruct (m <? 0).
Qed.

Lemma bounds_clamp (v : float) :
  is_nan v = false ->
  let p := Math_max 0 (Math_min 100 v) in
  (p =? clamp v 0 100) = true /\ (0 <=? p) = true /\ (p <=? 100) = true.
Proof.
  intros Hn p. subst p. rewrite (Math_min_100 v Hn). unfold clamp.
  destruct (100 <? v) eqn:H1.
  - rewrite Math_max_0 by reflexivity.
    pose proof (above_100_positive v (or_introl H1)) as H3.
    rewrite (ltb_asym _ _ H3). cbn. auto.
  - destruct (v <? 100) eqn:H2.
    + rewrite (Math_max_0 v Hn). destruct (0 <? v) eqn:H3.
      * rewrite (ltb_asym _ _ H3). rewrite (eqb_refl v Hn).
        auto using ltb_leb.
      * destruct (v <? 0) eqn:H4; [cbn; auto|].
        rewrite (eqb_of_not_ltb 0 v eq_refl Hn H3 H4). cbn. auto.
    + rewrite Math_max_0 by reflexivity.
      pose proof (eqb_of_not_ltb 100 v eq_refl Hn H1 H2) as He.
      pose proof (above_100_positive v (or_intror He)) as H3.
      rewrite (ltb_asym _ _ H3). cbn. auto.
Qed.

(** *** The percentage in binary64 *)

Lemma offset_not_nan (l w c : float) :
  is_finite l = true -> is_finite w = true -> (0 <? w) = true ->
  is_finite c = true ->
  is_nan ((c - l) / w * 100) = false.
Proof.
  intros Hl Hw Hp Hc. apply is_nan_Prim2SF.
  rewrite mul_spec, div_spec, sub_spec.
  destruct (positive_Prim2SF w Hw Hp) as (m & e & ->).
  change (Prim2SF 100) with (S754_finite false 7036874417766400 (-46)).
  apply SFmul_not_nan, SFdiv_not_nan, SFsub_not_nan;
    now apply is_finite_Prim2SF.
Qed.

Lemma sub_self (l : float) : is_finite l = true -> l - l = 0.
Proof.
  intro H. apply is_finite_Prim2SF in H. apply Prim2SF_inj.
  rewrite sub_spec. change (Prim2SF 0) with (S754_zero false).
  destruct (Prim2SF l) as [s|s| |s m e]; cbn in H; try tauto.
  - now destruct s.
  - cbn. now rewrite Z.sub_diag.
Qed.

Lemma zero_div (w : float) :
  is_finite w = true -> (0 <? w) = true -> 0 / w = 0.
Proof.
  intros Hw Hp. apply Prim2SF_inj. rewrite div_spec.
  destruct (positive_Prim2SF w Hw Hp) as (m & e & ->). reflexivity.
Qed.

(** C2, as the specification states it, fails: the operations round.
    With a left edge at the double nearest 0.3 and a width of 512,
    the pointer at [L + W] gives a position below 100; with a left edge
    at the double nearest 0.4, the pointer at [L + W/2] gives one below
    50; and on the rectangle of left edge 100 and width 400 the pointer
    at 158 gives a position below the 14.5 of the formula. *)
Lemma C2_endpoints_round :
  let l := 0x1.3333333333333p-2 in
  let l' := 0x1.999999999999ap-2 in
  let w := 512 in
  is_finite l = true /\ is_finite l' = true /\ (0 <? w) = true
  /\ (frameCallback (Some (mkRect l w)) (l + w) 50 <? 100) = true
  /\ (frameCallback (Some (mkRect l' w)) (l' + w / 2) 50 <? 50) = true
  /\ (frameCallback (Some (mkRect 100 400)) 158 50 <? 14.5) = true.
Proof. vm_compute. repeat split. Qed.

(** C2, amended: on a rectangle of finite left edge [l] and finite
    positive width [w], for every finite coordinate [c], the frame
    callback sets the position to [clamp(((c - l) / w) * 100, 0, 100)]
    with each operation rounded to binary64, a value that is never [NaN];
    the left edge gives 0; the position is 100 when the quotient
    [(c - l) / w] comes out as 1 and 50 when it comes out as one half;
    and every coordinate gives a position from 0 to 100. *)
Theorem C2_percentage_binary64 (l w c prev : float) :
  is_finite l = true -> is_finite w = true -> (0 <? w) = true ->
  is_finite c = true ->
  let position x := frameCallback (Some (mkRect l w)) x prev in
  let v := (c - l) / w * 100 in
  is_nan v = false
  /\ (position c =? clamp v 0 100) = true
  /\ position l = 0
  /\ ((c - l) / w = 1 -> position c = 100)
  /\ ((c - l) / w = 0.5 -> position c = 50)
  /\ (0 <=? position c) = true /\ (position c <=? 100) = true.
Proof.
  intros Hl Hw Hp Hc position v. subst position.
  cbn [frameCallback]. unfold percentage. cbn [left width]. fold v.
  pose proof (offset_not_nan l w c Hl Hw Hp Hc) as Hn.
  destruct (bounds_clamp v Hn) as (H1 & H2 & H3).
  split; [exact Hn|]. split; [exact H1|]. split.
  { rewrite (sub_self l Hl), (zero_div w Hw Hp). reflexivity. }
  split.
  { intro H. subst v. rewrite H. reflexivity. }
  split.
  { intro H. subst v. rewrite H. reflexivity. }
  split; [exact H2 | exact H3].
Qed.

Lemma C2_percentage_binary64_witness :
  let position x := frameCallback (Some (mkRect 100 400)) x 50 in
  position 100 = 0
  /\ position 500 = 100
  /\ position 300 = 50
  /\ (position 90000 <=? 100) = true.
Proof.
  pose proof (C2_percentage_binary64 100 400 500 50
                eq_refl eq_refl eq_refl eq_refl) as H5.
  pose proof (C2_percentage_binary64 100 400 300 50
                eq_refl eq_refl eq_refl eq_refl) as H3.
  pose proof (C2_percentage_binary64 100 400 90000 50
                eq_refl eq_refl eq_refl eq_refl) as H9.
  destruct H5 as (_ & _ & H0 & H5 & _).
  destruct H3 as (_ & _ & _ & _ & H3 & _).
  destruct H9 as (_ & _ & _ & _ & _ & _ & H9).
  split; [exact H0|].
  split; [exact (H5 eq_refl)|]. split; [exact (H3 eq_refl) | exact H9].
Defined.

End Binary64.

(** ** LazySection *)

Module LazySection.

Section Nodes.

(** What React renders: the type of [children] and [fallback]. *)
Variable ReactNode : Type.

(** The props; a [fallback] of [None] is one that is falsy. *)
Record Props : Type := mkProps {
  children : ReactNode;
  threshold : Q;
  rootMargin : string;
  fallback : option ReactNode;
  className : option string
}.

Record State : Type := mkState {
  props : Props;
  (** [useState(false)], twice *)
  isVisible : bool;
  hasLoaded : bool;
  (** The observer of the effect while it is connected and observes
      [ref.current]: [Some h], [h] the [hasLoaded] its callback closed
      over. *)
  observer : option bool;
  mounted : bool;
  (** The number of calls of [setIsVisible]. *)
  visibleUpdates : nat
}.

(** [observer.disconnect()] *)
Definition disconnect (s : State) : State :=
  mkState (props s) (isVisible s) (hasLoaded s) None (mounted s)
    (visibleUpdates s).

Definition setIsVisible (b : bool) (s : State) : State :=
  mkState (props s) b (hasLoaded s) (observer s) (mounted s)
    (S (visibleUpdates s)).

Definition setHasLoaded (b : bool) (s : State) : State :=
  mkState (props s) (isVisible s) b (observer s) (mounted s)
    (visibleUpdates s).

Definition setProps (p : Props) (s : State) : State :=
  mkState p (isVisible s) (hasLoaded s) (observer s) (mounted s)
    (visibleUpdates s).

(** The callback of the observer, on the first entry of the batch. *)
Definition observerCallback (captured isIntersecting : bool) (s : State)
    : State :=
  if isIntersecting && negb captured
  then disconnect (setHasLoaded true (setIsVisible true s))
  else s.

(** The effect: a new observer, which observes [ref.current]; its cleanup
    disconnects it. *)
Definition effect (s : State) : State :=
  mkState (props s) (isVisible s) (hasLoaded s)
    (if mounted s then Some (hasLoaded s) else None) (mounted s)
    (visibleUpdates s).

Definition effectCleanup (s : State) : State := disconnect s.

(** The dependencies [[threshold, rootMargin, hasLoaded]] of the effect. *)
Definition sameDeps (p : Props) (h : bool) (s : State) : bool :=
  Qeq_bool (threshold p) (threshold (props s))
  && String.eqb (rootMargin p) (rootMargin (props s))
  && Bool.eqb h (hasLoaded s).

Definition commit (p : Props) (h : bool) (s : State) : State :=
  if sameDeps p h s then s else effect (effectCleanup s).

Definition mount (p : Props) : State :=
  effect (mkState p false false None true 0).

Inductive Event : Type :=
| Intersection (isIntersecting : bool)
| Rerender (p : Props)
| Unmount.

Definition step (s : State) (e : Event) : State :=
  match e with
  | Intersection b =>
      match observer s with
      | Some captured =>
          commit (props s) (hasLoaded s) (observerCallback captured b s)
      | None => s
      end
  | Rerender p =>
      if mounted s then commit (props s) (hasLoaded s) (setProps p s) else s
  | Unmount =>
      effectCleanup
        (mkState (props s) (isVisible s) (hasLoaded s) (observer s) false
           (visibleUpdates s))
  end.

Definition run (es : list Event) (s : State) : State :=
  fold_left step es s.

(** What the JSX renders: the [minHeight] of the wrapper and its content. *)
Inductive Content : Type :=
| Children (n : ReactNode)
| Fallback (n : ReactNode)
| PulsePlaceholder.

Record Rendered : Type := mkRendered {
  minHeight : string;
  content : Content
}.

Definition render (s : State) : Rendered :=
  mkRendered
    (if isVisible s then "auto" else "200px")
    (if isVisible s then Children (children (props s))
     else match fallback (props s) with
          | Some f => Fallback f
          | None => PulsePlaceholder
          end).

(** The placeholder of the specification: the given fallback or the
    pulsing block, in a wrapper at least 200px high. *)
Definition placeholderOf (p : Props) : Rendered :=
  mkRendered "200px"
    match fallback p with
    | Some f => Fallback f
    | None => PulsePlaceholder
    end.

(** The events before the section enters the viewport: entries that do not
    intersect, and renders with new props. *)
Definition notEntered (e : Event) : bool :=
  match e with
  | Intersection false | Rerender _ => true
  | _ => false
  end.

Definition notUnmount (e : Event) : bool :=
  match e with
  | Unmount => false
  | _ => true
  end.

(** Before the section has entered: mounted, hidden, observed by an
    observer that closed over [hasLoaded = false]. *)
Definition waiting (s : State) : Prop :=
  isVisible s = false /\ hasLoaded s = false /\ observer s = Some false
  /\ mounted s = true /\ visibleUpdates s = 0%nat.

(** After: visible, and whatever observer is connected closed over
    [hasLoaded = true]. *)
Definition loaded (s : State) : Prop :=
  isVisible s = true /\ hasLoaded s = true
  /\ (observer s = Some true \/ observer s = None)
  /\ visibleUpdates s = 1%nat.

Lemma waiting_mount (p : Props) : waiting (mount p).
Proof. repeat split. Qed.

Lemma waiting_step (s : State) (e : Event) :
  waiting s -> notEntered e = true -> waiting (step s e).
Proof.
  destruct s as [p v h o m n]. unfold waiting. cbn.
  intros (-> & -> & -> & -> & ->) He.
  destruct e as [[|]|p'|]; try discriminate; cbn.
  - unfold commit, sameDeps. cbn.
    rewrite Qeq_bool_refl, String.eqb_refl. cbn. auto.
  - unfold commit. destruct (sameDeps p false _); cbn; auto.
Qed.

Lemma waiting_run (s : State) (es : list Event) :
  waiting s -> forallb notEntered es = true -> waiting (run es s).
Proof.
  revert s. induction es as [|e es IH]; intros s H Hes; [exact H|].
  cbn in Hes. apply andb_true_iff in Hes. destruct Hes as [He Hes].
  cbn. apply IH; [now apply waiting_step | exact Hes].
Qed.

Lemma waiting_enter (s : State) :
  waiting s -> loaded (step s (Intersection true)).
Proof.
  destruct s as [p v h o m n]. unfold waiting, loaded. cbn.
  intros (-> & -> & -> & -> & ->).
  unfold commit, sameDeps. cbn.
  rewrite Qeq_bool_refl, String.eqb_refl. cbn. auto.
Qed.

Lemma loaded_step (s : State) (e : Event) : loaded s -> loaded (step s e).
Proof.
  destruct s as [p v h o m n]. unfold loaded. cbn.
  intros (-> & -> & Ho & ->).
  destruct e as [b|p'|]; cbn.
  - destruct Ho as [-> | ->]; cbn; [|auto].
    unfold observerCallback, commit, sameDeps. destruct b; cbn;
      rewrite Qeq_bool_refl, String.eqb_refl; cbn; auto.
  - destruct m; cbn; [|tauto].
    unfold commit. destruct (sameDeps p true _); cbn; [tauto | auto].
  - auto.
Qed.

Lemma loaded_run (s : State) (es : list Event) :
  loaded s -> loaded (run es s).
Proof.
  revert s. induction es as [|e es IH]; intros s H; [exact H|].
  cbn. apply IH. now apply loaded_step.
Qed.

(** C9: until an entry of the observer reports the section in the
    viewport, the wrapper renders the placeholder with a minimum height of
    200px; from the first such entry on, whatever entries, renders or
    unmount follow, it renders the children with no minimum height, and
    [setIsVisible] has been called once. *)
Theorem C9_lazy_section_reveals_once (p : Props) (before after : list Event) :
  forallb notEntered before = true ->
  let s0 := run before (mount p) in
  let s1 := run after (step s0 (Intersection true)) in
  render s0 = placeholderOf (props s0)
  /\ visibleUpdates s0 = 0%nat
  /\ render s1 = mkRendered "auto" (Children (children (props s1)))
  /\ isVisible s1 = true
  /\ visibleUpdates s1 = 1%nat.
Proof.
  intros Hb s0 s1.
  assert (H0 : waiting s0) by (apply waiting_run; [apply waiting_mount | exact Hb]).
  assert (H1 : loaded s1) by (apply loaded_run, waiting_enter, H0).
  destruct H0 as (Hv0 & _ & _ & _ & Hn0).
  destruct H1 as (Hv1 & _ & _ & Hn1).
  unfold render, placeholderOf. rewrite Hv0, Hv1. auto.
Qed.

(** ** LazySection: any sequence of events *)

(** The two flags are one, the connected observer closed over the current
    [hasLoaded], and [setIsVisible] was called once if the section is
    visible and never otherwise. *)
Definition consistent (s : State) : Prop :=
  isVisible s = hasLoaded s
  /\ observer s = (if mounted s then Some (hasLoaded s) else None)
  /\ visibleUpdates s = (if isVisible s then 1 else 0)%nat.

Lemma consistent_step (s : State) (e : Event) :
  consistent s -> consistent (step s e).
Proof.
  destruct s as [p v h o m n]. unfold consistent. cbn.
  intros (-> & -> & ->).
  destruct e as [b|p'|]; cbn.
  - destruct m; cbn; [|auto].
    unfold observerCallback, commit, sameDeps.
    destruct b, h; cbn; rewrite Qeq_bool_refl, String.eqb_refl; cbn; auto.
  - destruct m; cbn; [|auto].
    unfold commit. destruct (sameDeps p h _); cbn; auto.
  - auto.
Qed.

(** In every state reached from the mount, whatever entries, renders and
    unmount arrive in whatever order: [isVisible] and [hasLoaded] are
    equal, the observer that is connected closed over the current
    [hasLoaded] (none is connected once unmounted), and [setIsVisible] has
    been called at most once. *)
Theorem flags_and_observer_agree (p : Props) (es : list Event) :
  let s := run es (mount p) in
  isVisible s = hasLoaded s
  /\ observer s = (if mounted s then Some (hasLoaded s) else None)
  /\ visibleUpdates s = (if isVisible s then 1 else 0)%nat.
Proof.
  assert (H : forall s, consistent s -> consistent (run es s)).
  { induction es as [|e es IH]; intros s Hs; [exact Hs|].
    cbn. apply IH. now apply consistent_step. }
  apply H. repeat split.
Qed.

(** After the unmount no observer is connected, and no entry, render or
    second unmount changes the state: a section unmounted before it
    entered the viewport is never revealed. *)
Theorem unmounted_section_is_inert (s : State) (es : list Event) :
  let s' := step s Unmount in
  observer s' = None
  /\ run es s' = s'
  /\ isVisible (run es s') = isVisible s.
Proof.
  intro s'.
  assert (H : run es s' = s').
  { subst s'. induction es as [|e es IH]; [reflexivity|].
    cbn [run fold_left]. destruct e; cbn [step]; exact IH. }
  rewrite H. subst s'. repeat split.
Qed.

End Nodes.

Lemma C9_lazy_section_reveals_once_witness :
  let p := mkProps string "section"%string (1 # 10) "50px" None None in
  let s0 := run string [Intersection string false] (mount string p) in
  let s1 :=
    run string [Intersection string false; Intersection string true]
      (step string s0 (Intersection string true)) in
  minHeight string (render string s0) = "200px"%string
  /\ content string (render string s1) = Children string "section"%string.
Proof.
  pose proof (C9_lazy_section_reveals_once string
                (mkProps string "section"%string (1 # 10) "50px" None None)
                [Intersection string false]
                [Intersection string false; Intersection string true]
                eq_refl) as H.
  destruct H as (H0 & _ & H1 & _).
  split.
  - exact (f_equal (minHeight string) H0).
  - exact (f_equal (content string) H1).
Defined.

End LazySection.

(** ** OptimizedImage *)

Module OptimizedImage.

(** [...props], the rest props the JSX spreads on the [img] after its own
    attributes: for the attributes the component sets and the rest props
    may carry, whether they do ([None] is a key that is absent), and with
    what value.  [src], [alt], [className], [width] and [height] are
    destructured out of them, and the type of the props leaves [loading]
    out. *)
Record RestProps : Type := mkRest {
  restOnLoad : bool;
  restOnError : bool;
  restDecoding : option (option string);
  restFetchPriority : option (option string);
  restStyle : option (list (string * string))
}.

(** The props the component names; [None] is [undefined]. *)
Record Props : Type := mkProps {
  src : string;
  alt : string;
  className : option string;
  fallback : option string;
  lazy : bool;
  aspectRatio : option string;
  width : option nat;
  height : option nat;
  priority : bool;
  rest : RestProps
}.

(** Rest props that carry none of these attributes. *)
Definition noRest : RestProps := mkRest false false None None None.

(** [useState(false)], twice. *)
Record State : Type := mkState { isLoaded : bool; hasError : bool }.

Definition initial : State := mkState false false.

Definition handleLoad (s : State) : State :=
  mkState true (hasError s).

Definition handleError (s : State) : State :=
  mkState true true.

(** A string in a condition: [undefined] and the empty string are falsy. *)
Definition truthy (o : option string) : bool :=
  match o with
  | Some (String _ _) => true
  | _ => false
  end.

(** An attribute the component sets, then the spread: the value of the
    rest props wins when they carry the key. *)
Definition spread {A : Type} (own : A) (given : option A) : A :=
  match given with
  | Some v => v
  | None => own
  end.

(** What the JSX renders that depends on the state, on the loading props
    or on the rest props: whether the pulsing placeholder is there, and
    the [src], [alt], [loading], [decoding], [fetchPriority], opacity
    class and [style] of the [img]. *)
Record Rendered : Type := mkRendered {
  placeholder : bool;
  imgSrc : string;
  imgAlt : string;
  loading : string;
  decoding : option string;
  fetchPriority : option string;
  opacity : string;
  imgStyle : list (string * string)
}.

Definition render (p : Props) (s : State) : Rendered :=
  mkRendered
    (negb (isLoaded s))
    (if hasError s && truthy (fallback p)
     then match fallback p with Some f => f | None => src p end
     else src p)
    (alt p)
    (if priority p then "eager" else if lazy p then "lazy" else "eager")
    (spread (Some "async"%string) (restDecoding (rest p)))
    (spread (Some (if priority p then "high" else "auto")%string)
       (restFetchPriority (rest p)))
    (if isLoaded s then "opacity-100" else "opacity-0")
    (spread [("contentVisibility", "auto")]%string (restStyle (rest p))).

(** The load and error events of the [img]: each runs the handler of the
    component, unless the rest props replaced it with one of the
    caller. *)
Inductive Event : Type := Load | Error.

Definition isError (e : Event) : bool :=
  match e with
  | Error => true
  | Load => false
  end.

Definition step (p : Props) (s : State) (e : Event) : State :=
  match e with
  | Load => if restOnLoad (rest p) then s else handleLoad s
  | Error => if restOnError (rest p) then s else handleError s
  end.

Definition run (p : Props) (es : list Event) (s : State) : State :=
  fold_left (step p) es s.

(** C10, as stated, fails when the caller passes an [onError] of its own
    in the rest props: it replaces [handleError], the error event leaves
    the state as it was, and the placeholder stays over an image of
    opacity 0. *)
Lemma C10_caller_onError_keeps_placeholder :
  let p :=
    mkProps "/before.jpg" "before" None None true None None None false
      (mkRest false true None None None) in
  let v := render p (step p initial Error) in
  fallback p = None
  /\ step p initial Error = initial
  /\ placeholder v = true
  /\ opacity v = "opacity-0"%string.
Proof. vm_compute. repeat split. Qed.

(** C10, amended: when no fallback was given and the rest props carry no
    [onError], the error event of the image sets both flags; the image,
    which was under the placeholder at opacity 0, keeps the original
    [src], the placeholder goes and the image is at full opacity; what is
    rendered is what a successful load renders: nothing shows the
    error. *)
Theorem C10_error_without_fallback (p : Props) (s : State) :
  fallback p = None ->
  restOnError (rest p) = false ->
  let s' := step p s Error in
  placeholder (render p initial) = true
  /\ opacity (render p initial) = "opacity-0"%string
  /\ hasError s' = true
  /\ isLoaded s' = true
  /\ imgSrc (render p s') = src p
  /\ placeholder (render p s') = false
  /\ opacity (render p s') = "opacity-100"%string
  /\ render p s' = render p (handleLoad s).
Proof.
  intros Hf Hr s'. subst s'. unfold render, step. rewrite Hr. cbn.
  rewrite Hf. cbn. rewrite andb_false_r. repeat split; reflexivity.
Qed.

Lemma C10_error_without_fallback_witness :
  let p :=
    mkProps "/before.jpg" "before" None None true None None None false
      noRest in
  placeholder (render p initial) = true
  /\ imgSrc (render p (step p initial Error)) = "/before.jpg"%string
  /\ placeholder (render p (step p initial Error)) = false
  /\ render p (step p initial Error) = render p (handleLoad initial).
Proof.
  pose proof (C10_error_without_fallback
                (mkProps "/before.jpg" "before" None None true None None None
                   false noRest)
                initial eq_refl eq_refl) as H.
  destruct H as (H0 & _ & _ & _ & H1 & H2 & _ & H3).
  split; [exact H0|]. split; [exact H1|]. split; [exact H2 | exact H3].
Defined.

(** ** OptimizedImage: any sequence of load and error events *)

Lemma run_flags (p : Props) (es : list Event) (s : State) :
  restOnLoad (rest p) = false ->
  restOnError (rest p) = false ->
  isLoaded (run p es s)
  = (isLoaded s || match es with [] => false | _ => true end).
Proof.
  intros Hl He. revert s.
  induction es as [|e es IH]; intro s; cbn [run fold_left].
  - now rewrite orb_false_r.
  - unfold run in IH. rewrite IH. unfold step. rewrite Hl, He.
    destruct e, s as [l h]; cbn; rewrite ?orb_true_r; auto.
Qed.

Lemma run_hasError (p : Props) (es : list Event) (s : State) :
  restOnError (rest p) = false ->
  hasError (run p es s) = (hasError s || existsb isError es).
Proof.
  intro He. revert s.
  induction es as [|e es IH]; intro s; cbn [run fold_left].
  - now rewrite orb_false_r.
  - unfold run in IH. rewrite IH. unfold step. rewrite He.
    destruct e, s as [l h], (restOnLoad (rest p)); cbn;
      rewrite ?orb_true_r; auto.
Qed.

(** When the rest props replace neither [onLoad] nor [onError]: from the
    first load or error event on, whatever events follow, the placeholder
    is gone and the image is at full opacity; neither ever comes back. *)
Theorem placeholder_never_returns
    (p : Props) (e : Event) (es : list Event) :
  restOnLoad (rest p) = false ->
  restOnError (rest p) = false ->
  let v := render p (run p (e :: es) initial) in
  placeholder (render p initial) = true
  /\ placeholder v = false
  /\ opacity v = "opacity-100"%string.
Proof.
  intros Hl He v. subst v. unfold render. cbn [placeholder opacity].
  rewrite (run_flags p (e :: es) initial Hl He). auto.
Qed.

Lemma placeholder_never_returns_witness :
  let p :=
    mkProps "/after.jpg" "after" None (Some "/plain.jpg"%string) true None
      None None false noRest in
  placeholder (render p (run p [Error; Load; Error] initial)) = false.
Proof.
  pose proof (placeholder_never_returns
                (mkProps "/after.jpg" "after" None (Some "/plain.jpg"%string)
                   true None None None false noRest)
                Error [Load; Error] eq_refl eq_refl) as H.
  destruct H as (_ & H & _). exact H.
Defined.

(** When the rest props do not replace [onError]: the image shows the
    fallback exactly when an error event has fired and the fallback is a
    non-empty string; otherwise, an empty-string fallback included, it
    shows [src]. *)
Theorem fallback_shown_after_error (p : Props) (es : list Event) :
  restOnError (rest p) = false ->
  imgSrc (render p (run p es initial))
  = match fallback p with
    | Some (String a f) =>
        if existsb isError es then String a f else src p
    | _ => src p
    end.
Proof.
  intro He. unfold render. cbn [imgSrc].
  rewrite (run_hasError p es initial He). cbn [hasError initial orb].
  destruct (fallback p) as [[|a f]|]; cbn;
    now rewrite ?andb_false_r, ?andb_true_r.
Qed.

Lemma fallback_shown_after_error_witness :
  let p :=
    mkProps "/after.jpg" "after" None (Some "/plain.jpg"%string) true None
      None None false noRest in
  imgSrc (render p (run p [Error] initial)) = "/plain.jpg"%string
  /\ imgSrc (render p (run p [Load] initial)) = "/after.jpg"%string.
Proof.
  split.
  - apply (fallback_shown_after_error
             (mkProps "/after.jpg" "after" None (Some "/plain.jpg"%string)
                true None None None false noRest)
             [Error] eq_refl).
  - apply (fallback_shown_after_error
             (mkProps "/after.jpg" "after" None (Some "/plain.jpg"%string)
                true None None None false noRest)
             [Load] eq_refl).
Defined.

(** The loading hints agree when the rest props carry no [fetchPriority]:
    an image with [priority] is fetched eagerly with a high priority
    whatever [lazy] says, and lazy loading is asked for exactly when
    [lazy] is set and [priority] is not, so it never comes with a high
    fetch priority. *)
Theorem priority_overrides_lazy (p : Props) (s : State) :
  restFetchPriority (rest p) = None ->
  let v := render p s in
  (priority p = true ->
   loading v = "eager"%string /\ fetchPriority v = Some "high"%string)
  /\ (loading v = "lazy"%string <-> lazy p = true /\ priority p = false)
  /\ ~ (loading v = "lazy"%string /\ fetchPriority v = Some "high"%string).
Proof.
  intros Hr v. subst v. unfold render. cbn [loading fetchPriority].
  rewrite Hr. cbn [spread].
  destruct (priority p), (lazy p);
    intuition (try discriminate; try congruence).
Qed.

Lemma priority_overrides_lazy_witness :
  let p :=
    mkProps "/hero.jpg" "hero" None None true None None None true noRest in
  loading (render p initial) = "eager"%string
  /\ fetchPriority (render p initial) = Some "high"%string.
Proof.
  pose proof (priority_overrides_lazy
                (mkProps "/hero.jpg" "hero" None None true None None None true
                   noRest)
                initial eq_refl) as H.
  destruct H as (H & _). exact (H eq_refl).
Defined.

End OptimizedImage.

(** ** FAQSection *)

Module FAQSection.
Import JS.

Local Open Scope string_scope.

Record Faq : Type := mkFaq { question : string; answer : string }.

(** The array [faqs] of the component. *)
Definition faqs : list Faq :=
  [ mkFaq "Quantas fotos devo enviar?"
      "Entre 3 e 8 fotos com boa luz. Quanto mais variedade, melhor será o resultado final. Recomendamos fotos com diferentes ângulos e expressões.";
    mkFaq "Posso escolher mais de um estilo?"
      "Sim! Dependendo do seu plano, você pode escolher até 7 estilos diferentes. Cada estilo oferece uma abordagem única para suas fotos profissionais.";
    mkFaq "E se eu não gostar do resultado?"
      "Tem revisão incluída em todos os planos. A gente ajusta com você até ficar do seu jeito. Sua satisfação é nossa prioridade.";
    mkFaq "Posso usar as fotos comercialmente?"
      "Sim, você tem total direito de uso comercial e pessoal. As fotos são suas para usar como quiser - redes sociais, portfólio, materiais de marketing, etc.";
    mkFaq "Preciso usar fundo branco?"
      "Não é obrigatório, mas quanto mais neutro e iluminado, melhor o resultado. Evite fundos muito bagunçados ou com pouca luz." ].

(** An [AccordionItem] of the JSX: its [key], its [value], the text of its
    trigger and the text of its content. *)
Record AccordionItem : Type := mkItem {
  key : nat;
  value : string;
  trigger : string;
  content : string
}.

(** [faqs.map((faq, index) => <AccordionItem ... />)] *)
Definition items (l : list Faq) : list AccordionItem :=
  mapIndex
    (fun faq index =>
       mkItem index ("item-" ++ toString index) (question faq) (answer faq))
    l.

(** The accordion of the section: [type="single"], [collapsible], and the
    items of [faqs]. *)
Record Accordion : Type := mkAccordion {
  single : bool;
  collapsible : bool;
  accordionItems : list AccordionItem
}.

Definition render : Accordion := mkAccordion true true (items faqs).

Lemma values_from (l : list Faq) (i : nat) :
  NoDup
    (map value
       (mapFrom
          (fun faq index =>
             mkItem index ("item-" ++ toString index) (question faq)
               (answer faq))
          i l)).
Proof.
  revert i. induction l as [|faq l IH]; intro i; cbn [mapFrom map].
  - constructor.
  - constructor; [|apply IH].
    cbn [value]. intro H. apply in_map_iff in H.
    destruct H as (it & Hv & Hin).
    apply mapFrom_In in Hin. destruct Hin as (faq' & k & Hk & ->).
    cbn [value] in Hv. injection Hv as Hv.
    apply toString_inj in Hv. lia.
Qed.

(** Whatever the list of questions, no two items have the same [value]:
    the accordion, which opens an item by its value, can tell them
    apart. *)
Theorem item_values_distinct (l : list Faq) :
  NoDup (map value (items l)).
Proof. apply values_from. Qed.

End FAQSection.

(** ** HowItWorksSection *)

Module HowItWorksSection.
Import JS.

Local Open Scope string_scope.

(** The icons of [lucide-react] the section uses. *)
Inductive Icon : Type := Package | Camera | Clock.

Record Step : Type := mkStep {
  icon : Icon;
  title : string;
  description : string
}.

(** The array [steps] of the component. *)
Definition steps : list Step :=
  [ mkStep Package "Escolha seu pacote"
      "Do básico ao profissional, tem um pacote pensado pra cada tipo de necessidade, você só escolhe o que combina com o seu objetivo.";
    mkStep Camera "Envie suas fotos e referências"
      "Você envia as fotos que deseja transformar com boa iluminação. Compartilha algumas inspirações de estilo, roupa e ambiente. A IA cuida do resto.";
    mkStep Clock "Receba suas fotos imediatamente"
      "Suas fotos chegam prontas no seu e-mail ou WhatsApp com alta qualidade profissional e do jeitinho que você imaginou." ].

(** A card of the grid: its [key], the number of seconds of its
    [animationDelay], its icon, the number in its badge and its texts. *)
Record Card : Type := mkCard {
  key : nat;
  animationDelay : number;
  cardIcon : Icon;
  badge : nat;
  cardTitle : string;
  cardDescription : string
}.

(** [index] as a JavaScript number. *)
Definition ofIndex (index : nat) : number :=
  Fin (inject_Z (Z.of_nat index)).

(** [steps.map((step, index) => <div ... />)]: the delay is
    [index * 0.2] seconds and the badge shows [index + 1]. *)
Definition cards (l : list Step) : list Card :=
  mapIndex
    (fun step index =>
       mkCard index (mul (ofIndex index) (Fin (2 # 10))) (icon step)
         (index + 1) (title step) (description step))
    l.

Definition render : list Card := cards steps.

Lemma badges_from (l : list Step) (i : nat) :
  map badge
    (mapFrom
       (fun step index =>
          mkCard index (mul (ofIndex index) (Fin (2 # 10))) (icon step)
            (index + 1) (title step) (description step))
       i l)
  = seq (i + 1) (List.length l).
Proof.
  revert i. induction l as [|step l IH]; intro i; cbn; [reflexivity|].
  f_equal. rewrite IH. f_equal; lia.
Qed.

(** Whatever the list of steps, the badges count them from 1, in the
    order of the list: 1, 2, ..., up to the number of steps. *)
Theorem badges_count_from_one (l : list Step) :
  map badge (cards l) = seq 1 (List.length l).
Proof. apply (badges_from l 0). Qed.

(** Whatever the list of steps, a card further down the list starts its
    animation later: the delays increase strictly with the index, from 0
    for the first card. *)
Theorem delays_increase (l : list Step) (i j : nat) (a b : Card) :
  nth_error (cards l) i = Some a ->
  nth_error (cards l) j = Some b ->
  (i < j)%nat ->
  ltb (animationDelay a) (animationDelay b) = true
  /\ (i = 0%nat -> equals (animationDelay a) (Fin 0)).
Proof.
  unfold cards, mapIndex. rewrite !mapFrom_nth.
  destruct (nth_error l i); [|discriminate].
  destruct (nth_error l j); [|discriminate].
  intros [= <-] [= <-] Hij. cbn.
  assert (H : (inject_Z (Z.of_nat i) < inject_Z (Z.of_nat j))%Q).
  { rewrite <- Zlt_Qlt. lia. }
  split.
  - destruct (Qlt_le_dec _ _); [reflexivity|]. exfalso. lra.
  - intros ->. cbn. reflexivity.
Qed.

Lemma delays_increase_witness :
  exists a b : Card,
    nth_error render 0 = Some a /\ nth_error render 2 = Some b
    /\ ltb (animationDelay a) (animationDelay b) = true.
Proof.
  eexists. eexists. split; [reflexivity|]. split; [reflexivity|].
  apply (delays_increase steps 0 2); [reflexivity | reflexivity | lia].
Defined.

End HowItWorksSection.
